(** * WebCrawler: the resilient paginated-harvest engine of [ab_scraper_visible.py]

    A shallow embedding of the scraper's control logic: URL name extraction,
    cookie capture with retries, metadata probing, page-count discovery, the
    paginated fetcher with its retry loop and windows, the checkpointed batch
    loop and the entry point.  Network, browser, clock, random numbers and the
    file system are oracles of an explicit environment; every function that
    swallows exceptions in the source is total here and the swallowed
    exception is a [None] of the inner computation. *)

From Stdlib Require Import ZArith QArith Lia Ascii String Floats.SpecFloat Numbers.DecimalString.
From stdpp Require Import base option list sorting numbers strings.

Open Scope Z_scope.

(** ** Python values and built-ins *)

(** What [json.loads] / [resp.json()] can return.  Python's [None] is
    [JNull]; a [dict] is an association list read by its first binding. *)
#[warnings="-register-all"] Inductive JSON : Type :=
  | JNull
  | JBool (b : bool)
  | JInt (n : Z)
  | JFloat (x : spec_float)
  | JStr (s : string)
  | JList (items : list JSON)
  | JDict (items : list (string * JSON)).

(** Built-ins whose full Unicode behaviour is not reproduced: [str.strip()]
    and [int(s)] on a [str] ([None] stands for [ValueError]).  The engine is
    parametric in them. *)
Class PyRuntime := {
  str_strip : string -> string;
  int_of_str : string -> option Z
}.

Definition is_none (v : JSON) : bool :=
  match v with JNull => true | _ => false end.

(** Truth value testing, as used by [or], [if x] and [not x]. *)
Definition truthy (v : JSON) : bool :=
  match v with
  | JNull => false
  | JBool b => b
  | JInt n => negb (n =? 0)
  | JFloat (S754_zero _) => false
  | JFloat _ => true
  | JStr s => negb (String.eqb s "")
  | JList items => match items with [] => false | _ => true end
  | JDict items => match items with [] => false | _ => true end
  end.

(** [a or b] *)
Definition py_or (a b : JSON) : JSON := if truthy a then a else b.

Fixpoint assoc (key : string) (items : list (string * JSON)) : option JSON :=
  match items with
  | [] => None
  | (k, v) :: rest => if String.eqb k key then Some v else assoc key rest
  end.

(** [v.get(key, dflt)]; [None] is the [AttributeError] of a value that is
    not a [dict]. *)
Definition py_get (v : JSON) (key : string) (dflt : JSON) : option JSON :=
  match v with
  | JDict items => Some (from_option id dflt (assoc key items))
  | _ => None
  end.

(** [int(x)] on a float truncates toward zero; NaN and infinities raise. *)
Definition float_trunc (x : spec_float) : option Z :=
  match x with
  | S754_zero _ => Some 0
  | S754_finite s m e =>
      let mag := if 0 <=? e then Z.pos m * 2 ^ e else Z.pos m / 2 ^ (- e) in
      Some (if s then - mag else mag)
  | S754_infinity _ | S754_nan => None
  end.

(** [int(v)]; [None] is [TypeError], [ValueError] or [OverflowError]. *)
Definition py_int `{PyRuntime} (v : JSON) : option Z :=
  match v with
  | JInt n => Some n
  | JBool b => Some (if b then 1 else 0)
  | JFloat x => float_trunc x
  | JStr s => int_of_str s
  | JNull | JList _ | JDict _ => None
  end.

(** [str(n)] for an [int]. *)
Definition str_of_int (n : Z) : string := NilZero.string_of_int (Z.to_int n).

(** [range(start, stop)] *)
Definition py_range (start stop : Z) : list Z := seqZ start (stop - start).

(** [range(start, stop, step)] for a positive [step], as its iterator yields
    it; [fuel] bounds the number of items. *)
Fixpoint range_step_from (fuel : nat) (start stop step : Z) : list Z :=
  match fuel with
  | O => []
  | S fuel' =>
      if start <? stop
      then start :: range_step_from fuel' (start + step) stop step
      else []
  end.

Definition py_range_step (start stop step : Z) : list Z :=
  range_step_from (Z.to_nat (stop - start)) start stop step.

(** [lst[i]] with Python's negative indices; [None] is [IndexError]. *)
Definition py_index {A} (lst : list A) (i : Z) : option A :=
  let n := Z.of_nat (length lst) in
  if (0 <=? i) && (i <? n) then lst !! Z.to_nat i
  else if (- n <=? i) && (i <? 0) then lst !! Z.to_nat (i + n)
  else None.

(** *** Strings

    A [str] is its sequence of UTF-8 bytes.  The separators and patterns the
    scraper uses are ASCII, and an ASCII byte never occurs inside a multi-byte
    sequence, so the byte-level functions agree with the code-point ones. *)

(** [s.startswith(p)] *)
Definition startswith (s p : string) : bool := String.prefix p s.

(** [s.endswith(suffix)] *)
Fixpoint endswith (s suffix : string) : bool :=
  if String.eqb s suffix then true
  else match s with
       | EmptyString => false
       | String _ s' => endswith s' suffix
       end.

(** [s.rstrip(c)] for a one-character set [c]. *)
Fixpoint rstrip (c : ascii) (s : string) : string :=
  match s with
  | EmptyString => EmptyString
  | String a s' =>
      match rstrip c s' with
      | EmptyString => if Ascii.eqb a c then EmptyString else String a EmptyString
      | r => String a r
      end
  end.

(** [s.split(c)] for a one-character separator: never empty. *)
Fixpoint split (c : ascii) (s : string) : list string :=
  match s with
  | EmptyString => [EmptyString]
  | String a s' =>
      if Ascii.eqb a c then EmptyString :: split c s'
      else match split c s' with
           | [] => [String a EmptyString]
           | part :: parts => String a part :: parts
           end
  end.

(** [s.replace(old, new)] for a non-empty [old]: every occurrence, leftmost
    first, without overlap.  [skip] counts the characters of a match still to
    be dropped. *)
Fixpoint replace_from (skip : nat) (old new s : string) : string :=
  match s with
  | EmptyString => EmptyString
  | String a s' =>
      match skip with
      | S k => replace_from k old new s'
      | O =>
          if String.prefix old s
          then new +:+ replace_from (String.length old - 1) old new s'
          else String a (replace_from O old new s')
      end
  end.

Definition replace (s old new : string) : string := replace_from O old new s.

(** ** Configuration *)

Definition RETRIES : Z := 5.
Definition BACKOFF_BASE : Z := 2.

(** ** Utilities *)

Definition ensure_scheme (s : string) : string :=
  if negb (startswith s "http://") && negb (startswith s "https://")
  then "https://" +:+ s
  else s.

(** [None] is the value returned by the [except] branch, reached only when
    [parts[-1]] raises. *)
Definition extract_urlname_from_url (url : string) : option string :=
  let url := rstrip "/" url in
  let parts := split "/" url in
  match last parts with
  | None => None
  | Some last_part =>
      if endswith last_part "-reviews"
      then Some (replace last_part "-reviews" "")
      else Some last_part
  end.

(** ** The checkpoint file *)

(** The outcome dictionary built by [process_company]. *)
Record Result := {
  r_url : string;
  r_index : Z;
  r_success : bool;
  r_urlname : option string;
  r_reviews : Z;
  r_pages : Z;
  r_error : option string;
  r_timestamp : string;
  r_output_file : option string
}.

Record Progress := {
  processed : list Result;
  failed : list Result;
  last_index : Z
}.

(** [batch_progress.json]: absent, present but rejected by [json.loads] (or
    unreadable), or holding a checkpoint document. *)
Inductive CheckpointFile :=
  | NoFile
  | Unreadable
  | Stored (p : Progress).

(** What one [write_text] does: it succeeds, it raises before the file is
    opened, or it raises after the file was truncated. *)
Inductive WriteOutcome := Written | FailedUntouched | FailedTruncated.

Definition empty_progress : Progress :=
  {| processed := []; failed := []; last_index := -1 |}.

Definition load_batch_progress (disk : CheckpointFile) : Progress :=
  match disk with
  | NoFile => empty_progress
  | Unreadable => empty_progress
  | Stored p => p
  end.

(** The exception of a failed write is logged and swallowed. *)
Definition save_batch_progress (w : WriteOutcome) (progress : Progress)
    (disk : CheckpointFile) : CheckpointFile :=
  match w with
  | Written => Stored progress
  | FailedUntouched => disk
  | FailedTruncated => Unreadable
  end.

(** ** Cookie capture *)

Record Cookie := { c_name : string; c_value : string }.

(** One pass through the [try] body: the browser was closed and the cookie
    jar read, or something raised. *)
Inductive BrowserRun :=
  | GotCookies (cookies : list Cookie)
  | BrowserRaised (e : string).

Inductive CaptureEvent :=
  | Launch (attempt : Z) (url : string)
  | Wait (seconds : Z).

Definition cookie_string (cookies : list Cookie) : string :=
  String.concat "; " (map (fun c => c_name c +:+ "=" +:+ c_value c) cookies).

Fixpoint capture_attempts (browser : Z -> BrowserRun) (review_url : string)
    (max_attempts : Z) (todo : list Z)
    : list CaptureEvent * (option string * string) :=
  match todo with
  | [] => ([], (None, "All cookie capture attempts failed"%string))
  | attempt :: rest =>
      match browser attempt with
      | GotCookies cookies =>
          match cookies with
          | _ :: _ => ([Launch attempt review_url], (Some (cookie_string cookies), ""%string))
          | [] =>
              let '(events, r) := capture_attempts browser review_url max_attempts rest in
              (Launch attempt review_url :: events, r)
          end
      | BrowserRaised e =>
          let error_msg :=
            "Attempt " +:+ str_of_int (attempt + 1) +:+ "/" +:+ str_of_int max_attempts
              +:+ " failed: " +:+ e in
          if attempt <? max_attempts - 1
          then
            let '(events, r) := capture_attempts browser review_url max_attempts rest in
            (Launch attempt review_url :: Wait (2 ^ attempt) :: events, r)
          else ([Launch attempt review_url], (None, error_msg))
      end
  end.

Definition capture_cookies_visible_browser (browser : Z -> BrowserRun)
    (review_url : string) (max_attempts : Z)
    : list CaptureEvent * (option string * string) :=
  let review_url := ensure_scheme review_url in
  capture_attempts browser review_url max_attempts (py_range 0 max_attempts).

(** ** Metadata probe and page discovery *)

Inductive Body := Json (v : JSON) | NotJson (e : string).

(** What an HTTP GET does: a response with its status and what [.json()]
    gives on it, or an exception of the client. *)
Inductive HttpReply :=
  | Reply (status : Z) (body : Body)
  | NoReply (e : string).

(** The remote site, as seen by [requests.get] and [session.get]. *)
Record Net := {
  seo_get : string -> string -> HttpReply;
  data_get : Z -> string -> Z -> Z -> HttpReply;
  page_get : Z -> Z -> Z -> HttpReply;
  random_random : Z -> Z -> Q;
  append_page : Z -> bool
}.

(** [raise_for_status] raises on a 4xx or 5xx status; every exception gives
    [None]. *)
Definition probe_seo_meta (net : Net) (urlname cookie_str : string) : JSON :=
  match seo_get net urlname cookie_str with
  | Reply status body =>
      if (400 <=? status) && (status <? 600) then JNull
      else match body with
           | Json v => v
           | NotJson _ => JNull
           end
  | NoReply _ => JNull
  end.

Definition extract_company_id `{PyRuntime} (seo_json : JSON) : option Z :=
  let body :=
    d ← py_get seo_json "data" JNull;
    let data := py_or d seo_json in
    c ← py_get data "company" JNull;
    let company := py_or c (JDict []) in
    cid ← py_get company "id" JNull;
    if truthy cid then n ← py_int cid; Some (Some n) else Some None in
  match body with
  | Some r => r
  | None => None
  end.

(** [int(((doc.get("data") or {}).get("pagination") or {}).get("totalPages", 0))],
    the expression both phases of the discovery evaluate. *)
Definition read_total_pages `{PyRuntime} (doc : JSON) : option Z :=
  d ← py_get doc "data" JNull;
  p ← py_get (py_or d (JDict [])) "pagination" JNull;
  t ← py_get (py_or p (JDict [])) "totalPages" (JInt 0);
  py_int t.

(** A phase yields [Some total] when it executes [return total]. *)
Definition discover_from_seo `{PyRuntime} (net : Net) (urlname cookie_str : string)
    : option Z :=
  let seo := probe_seo_meta net urlname cookie_str in
  if truthy seo then
    total ← read_total_pages seo;
    if 1 <? total then Some total else None
  else None.

Definition discover_from_data `{PyRuntime} (net : Net) (company_id : Z)
    (cookie_str : string) (limit : Z) : option Z :=
  match data_get net company_id cookie_str 1 limit with
  | Reply status body =>
      if status =? 200 then
        match body with
        | Json v =>
            total ← read_total_pages v;
            if 1 <? total then Some total else None
        | NotJson _ => None
        end
      else None
  | NoReply _ => None
  end.

Definition discover_total_pages `{PyRuntime} (net : Net) (company_id : Z)
    (urlname cookie_str : string) (limit : Z) : Z :=
  match discover_from_seo net urlname cookie_str with
  | Some total => total
  | None =>
      match discover_from_data net company_id cookie_str limit with
      | Some total => total
      | None => 1
      end
  end.

(** ** The paginated fetcher *)

Record CompanyFetcher := {
  company_id : Z;
  urlname : string;
  cookie_str : string;
  out_file : string;
  concurrency : Z;
  limit : Z
}.

Inductive FetchEvent :=
  | Request (page attempt : Z)
  | Sleep (seconds : Q).

(** [BACKOFF_BASE ** attempt + random.random()] *)
Definition backoff (net : Net) (page attempt : Z) : Q :=
  (inject_Z (BACKOFF_BASE ^ attempt) + random_random net page attempt)%Q.

(** The body of [for attempt in range(RETRIES)], over the attempts still to
    be made.  The result is the pair [(data, error)]. *)
Fixpoint fetch_attempts (self : CompanyFetcher) (net : Net) (page : Z)
    (todo : list Z) : list FetchEvent * (JSON * option string) :=
  match todo with
  | [] => ([], (JNull, Some "max_retries_exceeded"%string))
  | attempt :: rest =>
      let retry :=
        let '(events, r) := fetch_attempts self net page rest in
        (Request page attempt :: Sleep (backoff net page attempt) :: events, r) in
      let on_exception (e : string) :=
        if attempt <? RETRIES - 1 then retry
        else ([Request page attempt], (JNull, Some e)) in
      match page_get net (company_id self) page attempt with
      | Reply status body =>
          if status =? 200 then
            match body with
            | Json v => ([Request page attempt], (v, None))
            | NotJson e => on_exception e
            end
          else if (status =? 429) || (status =? 503) then retry
          else ([Request page attempt], (JNull, Some ("status_" +:+ str_of_int status)))
      | NoReply e => on_exception e
      end
  end.

Definition fetch_page_json (self : CompanyFetcher) (net : Net) (page : Z)
    : list FetchEvent * (JSON * option string) :=
  fetch_attempts self net page (py_range 0 RETRIES).

(** [(data.get("data", {}) or {}).get("reviews", []) or []] *)
Definition reviews_of (data : JSON) : option JSON :=
  d ← py_get data "data" (JDict []);
  r ← py_get (py_or d (JDict [])) "reviews" (JList []);
  Some (py_or r (JList [])).

(** [append_page net page_num] tells whether the temporary file could be
    written, appended to the output file and removed. *)
Definition process_page (self : CompanyFetcher) (net : Net) (page_num : Z)
    : bool * Z :=
  let '(data, err) := snd (fetch_page_json self net page_num) in
  if is_none data then (false, 0)
  else
    match reviews_of data with
    | Some (JList reviews) =>
        if append_page net page_num
        then (true, Z.of_nat (length reviews))
        else (false, 0)
    | Some _ => (false, 0)
    | None => (false, 0)
    end.

Definition batch_size : Z := 50.

(** One window: [range(start, min(start + batch_size, total_pages + 1))]. *)
Definition window (total_pages start : Z) : list Z :=
  py_range start (Z.min (start + batch_size) (total_pages + 1)).

Definition tally (acc : Z * Z) (result : bool * Z) : Z * Z :=
  let '(pages_fetched, reviews_written) := acc in
  let '(ok, cnt) := result in
  if ok then (pages_fetched + 1, reviews_written + cnt)
  else (pages_fetched, reviews_written).

(** The windows are awaited one after the other; the result also lists them
    in the order in which they were gathered. *)
Definition run (self : CompanyFetcher) (net : Net) (total_pages : Z)
    : list (list Z) * (Z * Z) :=
  fold_left
    (fun '(windows, counts) start =>
       let tasks := window total_pages start in
       let results := map (process_page self net) tasks in
       (windows ++ [tasks], fold_left tally results counts))
    (py_range_step 1 (total_pages + 1) batch_size)
    ([], (0, 0)).

(** ** The batch processor *)

Record Args := { resume : bool; reset : bool }.

(** An exception leaving a call: [KeyboardInterrupt], or one derived from
    [Exception]. *)
Inductive Raised :=
  | KeyboardInterrupt
  | Error (e : string).

(** What the loop's collaborators do in one run: the awaited
    [process_company(url, i, ...)] returns its result dictionary or is left by
    an exception, the pacing sleep after target [i] ends or is interrupted,
    and the [n]-th write of the checkpoint file has one of its outcomes. *)
Record BatchEnv := {
  company_run : Z -> string -> Result + Raised;
  pacing_sleep : Z -> option Raised;
  checkpoint_write : nat -> WriteOutcome
}.

Inductive Event :=
  | Skipped (i : Z)
  | Attempted (i : Z) (url : string)
  | Saved (progress : Progress) (w : WriteOutcome)
  | Paused (i : Z).

Record BatchState := {
  st_progress : Progress;
  st_disk : CheckpointFile;
  st_saves : nat;
  st_skipped : Z
}.

Definition start_index (args : Args) (progress : Progress) : Z :=
  if resume args then last_index progress + 1 else 0.

(** [progress["processed"].append(result)] or
    [progress["failed"].append(result)], then [progress["last_index"] = i]. *)
Definition record_result (progress : Progress) (result : Result) (i : Z) : Progress :=
  if r_success result
  then {| processed := processed progress ++ [result];
          failed := failed progress;
          last_index := i |}
  else {| processed := processed progress;
          failed := failed progress ++ [result];
          last_index := i |}.

(** [save_batch_progress(progress)] on the state of the run. *)
Definition save (env : BatchEnv) (progress : Progress) (st : BatchState)
    : Event * BatchState :=
  let w := checkpoint_write env (st_saves st) in
  (Saved progress w,
   {| st_progress := progress;
      st_disk := save_batch_progress w progress (st_disk st);
      st_saves := S (st_saves st);
      st_skipped := st_skipped st |}).

(** The [except KeyboardInterrupt] handler saves and re-raises; any other
    exception leaves the loop at once. *)
Definition leave (env : BatchEnv) (exn : Raised) (st : BatchState)
    : list Event * BatchState * option Raised :=
  match exn with
  | KeyboardInterrupt =>
      let '(saved, st') := save env (st_progress st) st in
      ([saved], st', Some KeyboardInterrupt)
  | Error e => ([], st, Some (Error e))
  end.

(** One pass through the body of [for i in range(start_index, total)]: its
    events, oldest first, the state it leaves and the exception that ends the
    run, if any. *)
Definition batch_step `{PyRuntime} (env : BatchEnv) (companies : list string)
    (total : Z) (i : Z) (st : BatchState)
    : list Event * BatchState * option Raised :=
  match py_index companies i with
  | None => ([], st, Some (Error "IndexError"))
  | Some company =>
      let url := str_strip company in
      if String.eqb url "" then
        ([Skipped i],
         {| st_progress := st_progress st; st_disk := st_disk st;
            st_saves := st_saves st; st_skipped := st_skipped st + 1 |},
         None)
      else
        match company_run env i url with
        | inr exn =>
            let '(events, st', c) := leave env exn st in
            (Attempted i url :: events, st', c)
        | inl result =>
            let '(saved, st1) := save env (record_result (st_progress st) result i) st in
            if i <? total - 1 then
              match pacing_sleep env i with
              | Some exn =>
                  let '(events, st', c) := leave env exn st1 in
                  (Attempted i url :: saved :: Paused i :: events, st', c)
              | None => ([Attempted i url; saved; Paused i], st1, None)
              end
            else ([Attempted i url; saved], st1, None)
        end
  end.

(** The loop over the indices still to be visited. *)
Fixpoint batch_loop `{PyRuntime} (env : BatchEnv) (companies : list string)
    (total : Z) (todo : list Z) (st : BatchState)
    : list Event * BatchState * option Raised :=
  match todo with
  | [] => ([], st, None)
  | i :: rest =>
      let '(events, st1, c) := batch_step env companies total i st in
      match c with
      | Some exn => (events, st1, Some exn)
      | None =>
          let '(events', st', c') := batch_loop env companies total rest st1 in
          (events ++ events', st', c')
      end
  end.

Definition process_batch `{PyRuntime} (env : BatchEnv) (companies : list string)
    (args : Args) (disk : CheckpointFile)
    : list Event * BatchState * option Raised :=
  let progress := load_batch_progress disk in
  let total := Z.of_nat (length companies) in
  batch_loop env companies total
    (py_range (start_index args progress) total)
    {| st_progress := progress; st_disk := disk; st_saves := 0; st_skipped := 0 |}.

(** ** Entry point *)

(** The file system and the CSV reader as [main_async] meets them: [None] is
    a call that returned normally. *)
Record MainEnv := {
  mkdir_base_dir : option Raised;
  unlink_checkpoint : option Raised;
  read_companies_from_csv : list string + Raised;
  batch_env : BatchEnv
}.

Definition checkpoint_exists (disk : CheckpointFile) : bool :=
  match disk with NoFile => false | _ => true end.

(** The checkpoint file after the [--reset] step, or the exception of
    [unlink]. *)
Definition reset_step (env : MainEnv) (args : Args) (disk : CheckpointFile)
    : CheckpointFile + Raised :=
  if reset args then
    if checkpoint_exists disk then
      match unlink_checkpoint env with
      | None => inl NoFile
      | Some exn => inr exn
      end
    else inl disk
  else inl disk.

Definition main_async `{PyRuntime} (env : MainEnv) (args : Args) (disk : CheckpointFile)
    : list Event * CheckpointFile * option Raised :=
  match mkdir_base_dir env with
  | Some exn => ([], disk, Some exn)
  | None =>
      match reset_step env args disk with
      | inr exn => ([], disk, Some exn)
      | inl disk1 =>
          match read_companies_from_csv env with
          | inr exn => ([], disk1, Some exn)
          | inl companies =>
              match companies with
              | [] => ([], disk1, None)
              | _ :: _ =>
                  let '(events, st, c) := process_batch (batch_env env) companies args disk1 in
                  (events, st_disk st, c)
              end
          end
      end
  end.

(** The exit status of the process: [main] returns normally when
    [main_async] does and when it catches [KeyboardInterrupt]; any
    [Exception] ends in [sys.exit(1)]. *)
Definition main `{PyRuntime} (env : MainEnv) (args : Args) (disk : CheckpointFile)
    : list Event * CheckpointFile * Z :=
  let '(events, disk', c) := main_async env args disk in
  match c with
  | None => (events, disk', 0)
  | Some KeyboardInterrupt => (events, disk', 0)
  | Some (Error _) => (events, disk', 1)
  end.

(** ** Reading a run *)

(** The indices the loop visited, and those it handed to [process_company]. *)
Definition visited (events : list Event) : list Z :=
  omap (fun e => match e with
                 | Skipped i | Attempted i _ => Some i
                 | _ => None
                 end) events.

Definition attempted (events : list Event) : list Z :=
  omap (fun e => match e with Attempted i _ => Some i | _ => None end) events.

(** The checkpoints handed to [save_batch_progress], oldest first. *)
Definition checkpoints (events : list Event) : list Progress :=
  omap (fun e => match e with Saved p _ => Some p | _ => None end) events.

(** The checkpoint in memory once [events] have happened, starting from [p0]. *)
Definition progress_after (p0 : Progress) (events : list Event) : Progress :=
  fold_left (fun p e => match e with
                        | Saved q _ => q
                        | _ => p
                        end) events p0.

(** The checkpoint file once [events] have happened. *)
Definition disk_after (disk : CheckpointFile) (events : list Event) : CheckpointFile :=
  fold_left (fun d e => match e with
                        | Saved p w => save_batch_progress w p d
                        | _ => d
                        end) events disk.

(** The result dictionaries [process_company] returned, oldest first. *)
Definition outcomes (env : BatchEnv) (events : list Event) : list Result :=
  omap (fun e => match e with
                 | Attempted i url =>
                     match company_run env i url with
                     | inl result => Some result
                     | inr _ => None
                     end
                 | _ => None
                 end) events.

Definition entries (p : Progress) : nat :=
  length (processed p) + length (failed p).

Definition successes (results : list Result) : list Result :=
  filter (fun r => r_success r = true) results.

Definition failures (results : list Result) : list Result :=
  filter (fun r => r_success r = false) results.

(** [q] keeps every entry of [p], in place. *)
Definition extends (p q : Progress) : Prop :=
  processed p `prefix_of` processed q /\ failed p `prefix_of` failed q.

(** The values [last_index] takes in a run: the one loaded, then those of
    the checkpoints saved. *)
Definition saved_indices (events : list Event) : list Z :=
  last_index <$> checkpoints events.

Definition last_index_history (disk : CheckpointFile) (events : list Event) : list Z :=
  last_index (load_batch_progress disk) :: saved_indices events.

(** What follows the save of a completed target: nothing after the last
    target, else the pacing sleep, which may be left by an exception. *)
Inductive PauseShape (i : Z) (p : Progress) : list Event -> option Raised -> Prop :=
  | pause_last : PauseShape i p [] None
  | pause_slept : PauseShape i p [Paused i] None
  | pause_crashed e : PauseShape i p [Paused i] (Some (Error e))
  | pause_interrupted w :
      PauseShape i p [Paused i; Saved p w] (Some KeyboardInterrupt).

(** What one pass through the loop body can be, from the checkpoint [cur] in
    memory: its events, the checkpoint it leaves and how it ends. *)
Inductive StepShape (env : BatchEnv) (i : Z) (cur : Progress)
    : list Event -> Progress -> option Raised -> Prop :=
  | step_index_error :
      StepShape env i cur [] cur (Some (Error "IndexError"))
  | step_skipped :
      StepShape env i cur [Skipped i] cur None
  | step_crashed url e :
      company_run env i url = inr (Error e) ->
      StepShape env i cur [Attempted i url] cur (Some (Error e))
  | step_interrupted url w :
      company_run env i url = inr KeyboardInterrupt ->
      StepShape env i cur [Attempted i url; Saved cur w] cur (Some KeyboardInterrupt)
  | step_completed url result w tail c :
      company_run env i url = inl result ->
      PauseShape i (record_result cur result i) tail c ->
      StepShape env i cur
        (Attempted i url :: Saved (record_result cur result i) w :: tail)
        (record_result cur result i) c.

(** The place in [companies] that [companies[i]] reads. *)
Definition position (companies : list string) (i : Z) : Z :=
  if i <? 0 then i + Z.of_nat (length companies) else i.

Definition exit_status (r : list Event * CheckpointFile * Z) : Z := r.2.

(** The number of [Launch] events of a capture, and its waits. *)
Definition launches (events : list CaptureEvent) : list Z :=
  omap (fun e => match e with Launch a _ => Some a | _ => None end) events.

Definition waits (events : list CaptureEvent) : list Z :=
  omap (fun e => match e with Wait s => Some s | _ => None end) events.

Definition requests (events : list FetchEvent) : list Z :=
  omap (fun e => match e with Request _ a => Some a | _ => None end) events.

Definition sleeps (events : list FetchEvent) : list Q :=
  omap (fun e => match e with Sleep s => Some s | _ => None end) events.

(** A 429 or a 503. *)
Definition rate_limited (reply : HttpReply) : bool :=
  match reply with
  | Reply status _ => (status =? 429) || (status =? 503)
  | NoReply _ => false
  end.

(** The events of attempts that were all answered by a 429 or a 503: each
    request is followed by its backoff sleep. *)
Definition retry_rounds (net : Net) (page : Z) (attempts : list Z) : list FetchEvent :=
  flat_map (fun a => [Request page a; Sleep (backoff net page a)]) attempts.

(** The pages [run] is to fetch, and what each adds to the totals. *)
Definition page_ok (self : CompanyFetcher) (net : Net) (page : Z) : bool :=
  (process_page self net page).1.

Definition page_records (self : CompanyFetcher) (net : Net) (page : Z) : Z :=
  if page_ok self net page then (process_page self net page).2 else 0.

Definition sum_Z (l : list Z) : Z := foldr Z.add 0 l.

(** ** The statements of the specification *)

(** The final path segment of a URL and the removal of one trailing suffix,
    in the words of the specification. *)
Definition final_segment (url : string) : string :=
  default EmptyString (last (split "/" (rstrip "/" url))).

Definition strip_suffix (suffix s : string) : string :=
  if endswith s suffix
  then String.substring 0 (String.length s - String.length suffix) s
  else s.

(** No occurrence of ["-reviews"] starts inside [stem] when ["-reviews"] is
    appended to it. *)
Fixpoint no_inner_match (stem : string) : bool :=
  match stem with
  | EmptyString => true
  | String _ stem' =>
      negb (String.prefix "-reviews" (stem +:+ "-reviews")) && no_inner_match stem'
  end.

(** The nested identifier field of a metadata document: [company.id] inside
    [data], or at the top level when there is no [data]. *)
Definition field (key : string) (v : JSON) : option JSON :=
  match v with
  | JDict items => assoc key items
  | _ => None
  end.

Definition nested_id (seo_json : JSON) : option JSON :=
  let data :=
    match field "data" seo_json with
    | Some d => if truthy d then d else seo_json
    | None => seo_json
    end in
  company ← field "company" data;
  field "id" company.

Definition numeric (v : JSON) : bool :=
  match v with
  | JInt _ | JFloat _ => true
  | _ => false
  end.

(** A response body whose pagination object reports [n] pages. *)
Definition pagination_doc (n : Z) : JSON :=
  JDict [("data"%string, JDict [("pagination"%string, JDict [("totalPages"%string, JInt n)])])].

(** ** A reference runtime and sample runs *)

Definition is_space (a : ascii) : bool :=
  let n := Z.of_N (N_of_ascii a) in
  ((9 <=? n) && (n <=? 13)) || ((28 <=? n) && (n <=? 32)).

Fixpoint lstrip_space (s : string) : string :=
  match s with
  | String a s' => if is_space a then lstrip_space s' else s
  | EmptyString => EmptyString
  end.

Fixpoint rstrip_space (s : string) : string :=
  match s with
  | EmptyString => EmptyString
  | String a s' =>
      match rstrip_space s' with
      | EmptyString => if is_space a then EmptyString else String a EmptyString
      | r => String a r
      end
  end.

Definition digit_of (a : ascii) : option Z :=
  let n := Z.of_N (N_of_ascii a) in
  if (48 <=? n) && (n <=? 57) then Some (n - 48) else None.

(** Decimal digits, single underscores allowed between two digits. *)
Fixpoint parse_digits (acc : Z) (after_digit : bool) (s : string) : option Z :=
  match s with
  | EmptyString => if after_digit then Some acc else None
  | String a s' =>
      match digit_of a with
      | Some d => parse_digits (10 * acc + d) true s'
      | None =>
          if Ascii.eqb a "_" && after_digit then parse_digits acc false s' else None
      end
  end.

Definition parse_int (s : string) : option Z :=
  match rstrip_space (lstrip_space s) with
  | String "-" digits => Z.opp <$> parse_digits 0 false digits
  | String "+" digits => parse_digits 0 false digits
  | digits => parse_digits 0 false digits
  end.

(** CPython on ASCII text. *)
Definition ascii_runtime : PyRuntime :=
  {| str_strip := fun s => rstrip_space (lstrip_space s);
     int_of_str := parse_int |}.

Definition sample_result (url : string) (i : Z) (ok : bool) : Result :=
  {| r_url := url; r_index := i; r_success := ok;
     r_urlname := extract_urlname_from_url url;
     r_reviews := 0; r_pages := 0;
     r_error := if ok then None else Some "Cookie capture failed: timeout"%string;
     r_timestamp := "2025-01-01T00:00:00"; r_output_file := None |}.

(** A checkpoint left by an earlier run that reached index 7. *)
Definition stale_checkpoint : Progress :=
  {| processed := [sample_result "https://www.ambitionbox.com/reviews/tcs-reviews" 7 true];
     failed := [];
     last_index := 7 |}.

(** Every target fails, nothing interrupts, and the first write of the
    checkpoint file raises before the file is opened. *)
Definition first_write_fails : BatchEnv :=
  {| company_run := fun i url => inl (sample_result url i false);
     pacing_sleep := fun _ => None;
     checkpoint_write := fun n => match n with O => FailedUntouched | _ => Written end |}.

(** Every target succeeds and every write does. *)
Definition quiet_batch : BatchEnv :=
  {| company_run := fun i url => inl (sample_result url i true);
     pacing_sleep := fun _ => None;
     checkpoint_write := fun _ => Written |}.

(** Every target succeeds, but the disk is full: every write of the
    checkpoint file raises once the file has been opened, and so truncated. *)
Definition disk_full_batch : BatchEnv :=
  {| company_run := fun i url => inl (sample_result url i true);
     pacing_sleep := fun _ => None;
     checkpoint_write := fun _ => FailedTruncated |}.

Definition two_companies : list string :=
  ["https://www.ambitionbox.com/reviews/infosys-reviews"%string;
   "https://www.ambitionbox.com/reviews/wipro-reviews"%string].

Definition plain_args : Args := {| resume := false; reset := false |}.
Definition resume_args : Args := {| resume := true; reset := false |}.

(** The CSV file is readable and lists no company. *)
Definition empty_csv : MainEnv :=
  {| mkdir_base_dir := None;
     unlink_checkpoint := None;
     read_companies_from_csv := inl [];
     batch_env := quiet_batch |}.

(** The first visit yields no cookie, the second one yields one. *)
Definition no_cookies_then_one (attempt : Z) : BrowserRun :=
  if attempt =? 0 then GotCookies []
  else GotCookies [ {| c_name := "sid"; c_value := "abc" |} ].

(** The first visit times out, the second one yields a cookie. *)
Definition timeout_then_one (attempt : Z) : BrowserRun :=
  if attempt =? 0 then BrowserRaised "Timeout 45000ms exceeded"
  else GotCookies [ {| c_name := "sid"; c_value := "abc" |} ].

Definition never_any_cookie (attempt : Z) : BrowserRun := GotCookies [].

(** A site that answers every page request with 429. *)
Definition always_429 : Net :=
  {| seo_get := fun _ _ => NoReply "unused";
     data_get := fun _ _ _ _ => NoReply "unused";
     page_get := fun _ _ _ => Reply 429 (NotJson "Too Many Requests");
     random_random := fun _ _ => (1 # 2)%Q;
     append_page := fun _ => true |}.

(** A site whose metadata reports one page and whose data endpoint reports
    seven. *)
Definition one_then_seven : Net :=
  {| seo_get := fun _ _ => Reply 200 (Json (pagination_doc 1));
     data_get := fun _ _ _ _ => Reply 200 (Json (pagination_doc 7));
     page_get := fun _ page _ =>
       Reply 200 (Json (JDict [("data"%string,
                                JDict [("reviews"%string, JList [JDict []; JDict []])])]));
     random_random := fun _ _ => 0%Q;
     append_page := fun page => negb (page =? 3) |}.

(** A site that answers a page with a 429, then drops the connection, then
    serves the page. *)
Definition recovers_on_third_try : Net :=
  {| seo_get := fun _ _ => NoReply "unused";
     data_get := fun _ _ _ _ => NoReply "unused";
     page_get := fun _ _ attempt =>
       if attempt =? 0 then Reply 429 (NotJson "Too Many Requests")
       else if attempt =? 1 then NoReply "Server disconnected"
       else Reply 200 (Json (JDict [("data"%string,
                                     JDict [("reviews"%string, JList [JDict []])])]));
     random_random := fun _ _ => (1 # 4)%Q;
     append_page := fun _ => true |}.

Definition sample_fetcher : CompanyFetcher :=
  {| company_id := 42; urlname := "infosys"; cookie_str := "sid=abc";
     out_file := "reviews_data/infosys_reviews/reviews_infosys.ndjson";
     concurrency := 5; limit := 20 |}.

(** A metadata document whose company identifier is 0. *)
Definition zero_id_doc : JSON :=
  JDict [("data"%string, JDict [("company"%string, JDict [("id"%string, JInt 0)])])].

(** ** File names *)

(** [sanitize_filename] on the characters of a [str].  The character classes
    of the regular expressions are those of the interpreter: [is_word] is
    [\w], [is_space] is [\s] (the characters [str.strip()] removes) and
    [is_hyphen] tells the character [-]; [underscore] is [_]. *)
Section Sanitize.
Context {char : Type}.
Variables (is_word is_space is_hyphen : char -> bool) (underscore : char).

(** [re.sub(r'[^\w\s-]', '', name)] *)
Definition drop_unsafe (name : list char) : list char :=
  List.filter (fun c => is_word c || is_space c || is_hyphen c) name.

Fixpoint lstrip_chars (s : list char) : list char :=
  match s with
  | c :: s' => if is_space c then lstrip_chars s' else s
  | [] => []
  end.

Fixpoint rstrip_chars (s : list char) : list char :=
  match s with
  | [] => []
  | c :: s' =>
      match rstrip_chars s' with
      | [] => if is_space c then [] else [c]
      | r => c :: r
      end
  end.

(** [re.sub(r'[-\s]+', '_', safe)]: every maximal run of hyphens and spaces
    becomes one underscore; [in_run] tells that the run has begun. *)
Fixpoint collapse_runs (in_run : bool) (s : list char) : list char :=
  match s with
  | [] => []
  | c :: s' =>
      if is_hyphen c || is_space c
      then if in_run then collapse_runs true s' else underscore :: collapse_runs true s'
      else c :: collapse_runs false s'
  end.

Definition sanitize_filename (name : list char) : list char :=
  let safe := rstrip_chars (lstrip_chars (drop_unsafe name)) in
  let safe := collapse_runs false safe in
  take 100 safe.

End Sanitize.

(** The answers after which the retry loop sleeps and tries again, as long as
    attempts are left: a 429 or 503, an exception of the client, or a 200
    whose body is not JSON. *)
Definition transient (reply : HttpReply) : bool :=
  match reply with
  | Reply status body =>
      if status =? 200 then match body with Json _ => false | NotJson _ => true end
      else (status =? 429) || (status =? 503)
  | NoReply _ => true
  end.

(** The ASCII character classes of CPython. *)
Definition ascii_is_word (a : ascii) : bool :=
  let n := Z.of_N (N_of_ascii a) in
  ((48 <=? n) && (n <=? 57)) || ((65 <=? n) && (n <=? 90))
  || ((97 <=? n) && (n <=? 122)) || (n =? 95).

Definition ascii_sanitize (name : string) : string :=
  string_of_list_ascii
    (sanitize_filename ascii_is_word is_space (Ascii.eqb "-") "_"%char
       (list_ascii_of_string name)).

(** ** The batch loop in memory *)

(** What one pass through the loop body does to the checkpoint in memory, and
    the exception that ends the run there, if any: neither depends on the
    checkpoint file. *)
Definition step_outcome `{PyRuntime} (env : BatchEnv) (companies : list string)
    (total : Z) (i : Z) (cur : Progress) : Progress * option Raised :=
  match py_index companies i with
  | None => (cur, Some (Error "IndexError"))
  | Some company =>
      let url := str_strip company in
      if String.eqb url "" then (cur, None)
      else
        match company_run env i url with
        | inr exn => (cur, Some exn)
        | inl result =>
            (record_result cur result i,
             if i <? total - 1 then pacing_sleep env i else None)
        end
  end.

Fixpoint loop_outcome `{PyRuntime} (env : BatchEnv) (companies : list string)
    (total : Z) (todo : list Z) (cur : Progress) : Progress * option Raised :=
  match todo with
  | [] => (cur, None)
  | i :: rest =>
      match step_outcome env companies total i cur with
      | (p, Some exn) => (p, Some exn)
      | (p, None) => loop_outcome env companies total rest p
      end
  end.

(** The entries of [companies] that are blank once stripped. *)
Definition is_blank `{PyRuntime} (company : string) : bool :=
  String.eqb (str_strip company) "".

(** An environment that differs only in what the writes of the checkpoint
    file do. *)
Definition with_writes (env : BatchEnv) (writes : nat -> WriteOutcome) : BatchEnv :=
  {| company_run := company_run env;
     pacing_sleep := pacing_sleep env;
     checkpoint_write := writes |}.

(** The third target is interrupted while it is processed. *)
Definition interrupted_at_third : BatchEnv :=
  {| company_run := fun i url =>
       if i =? 2 then inr KeyboardInterrupt else inl (sample_result url i true);
     pacing_sleep := fun _ => None;
     checkpoint_write := fun _ => Written |}.

Definition four_companies : list string :=
  ["https://www.ambitionbox.com/reviews/infosys-reviews"%string;
   "   "%string;
   "https://www.ambitionbox.com/reviews/wipro-reviews"%string;
   "https://www.ambitionbox.com/reviews/tcs-reviews"%string].

(** ** One company *)

(** What the interpreter and the operating system contribute to texts and
    file names: the characters (code points) of a [str] and the [str] of
    given characters, the character classes [\w] and [\s] of [re], the
    separator that [pathlib] puts between the parts of a path,
    [str.lower()], and the search of the pattern [(https?://[^\s,]+)]. *)
Class PyText := {
  chars_of : string -> list N;
  str_of : list N -> string;
  is_word_char : N -> bool;
  is_space_char : N -> bool;
  path_sep : string;
  str_lower : string -> string;
  url_search : string -> option string
}.

(** [sanitize_filename] on a [str]: the hyphen is character 45, the
    underscore character 95. *)
Definition sanitize_name `{PyText} (name : string) : string :=
  str_of (sanitize_filename is_word_char is_space_char (N.eqb 45) 95%N (chars_of name)).

(** [BASE_DIR / f"{sanitize_filename(urlname)}_reviews"] and the output file
    in it. *)
Definition company_dir `{PyText} (urlname : string) : string :=
  ("reviews_data" +:+ path_sep +:+ sanitize_name urlname +:+ "_reviews")%string.

Definition out_file_of `{PyText} (urlname : string) : string :=
  (company_dir urlname +:+ path_sep +:+ "reviews_" +:+ urlname +:+ ".ndjson")%string.

(** [args.limit] and [args.concurrency]. *)
Record FetchArgs := { arg_limit : Z; arg_concurrency : Z }.

(** What [process_company] meets: the clock, [mkdir] on the company's
    directory (the text of its exception, if it raises), the browser for a
    URL, the site when the metadata is probed and the site afterwards (for
    the discovery and the pages), and the exception, if any, of opening or
    closing the fetcher's session or of creating the output directory. *)
Record World := {
  now : string;
  mkdir_company_dir : string -> option string;
  browser_of : string -> Z -> BrowserRun;
  meta_net : Net;
  site : Net;
  session_error : option string
}.

Definition failed_result (w : World) (url : string) (index : Z)
    (name : option string) (pages : Z) (e : string) : Result :=
  {| r_url := url; r_index := index; r_success := false; r_urlname := name;
     r_reviews := 0; r_pages := pages; r_error := Some e;
     r_timestamp := now w; r_output_file := None |}.

(** Every exception is caught and becomes the [error] of the result.  A
    negative [--concurrency] makes [asyncio.Semaphore] raise; with
    [--concurrency 0] no page fetch can ever start, so the results of this
    function stand for [arg_concurrency args <> 0]. *)
Definition process_company `{PyRuntime} `{PyText} (w : World) (args : FetchArgs)
    (url : string) (index total : Z) : Result :=
  let fail := failed_result w url index in
  match extract_urlname_from_url url with
  | None => fail None 0 "Could not extract urlname from URL"%string
  | Some name =>
      if String.eqb name "" then fail None 0 "Could not extract urlname from URL"%string
      else
        match mkdir_company_dir w (company_dir name) with
        | Some e => fail (Some name) 0 e
        | None =>
            let '(cookie, error) :=
              (capture_cookies_visible_browser (browser_of w url) url 3).2 in
            let no_cookie := fail (Some name) 0 ("Cookie capture failed: " +:+ error)%string in
            match cookie with
            | None => no_cookie
            | Some cookies =>
                if String.eqb cookies "" then no_cookie
                else
                  let seo_data := probe_seo_meta (meta_net w) name cookies in
                  if negb (truthy seo_data)
                  then fail (Some name) 0 "Failed to fetch SEO metadata"%string
                  else
                    let no_id := fail (Some name) 0 "Could not extract company ID"%string in
                    match extract_company_id seo_data with
                    | None => no_id
                    | Some id =>
                        if id =? 0 then no_id
                        else
                          let total_pages :=
                            discover_total_pages (site w) id name cookies (arg_limit args) in
                          if arg_concurrency args <? 0
                          then fail (Some name) total_pages
                                 "Semaphore initial value must be >= 0"%string
                          else
                            match session_error w with
                            | Some e => fail (Some name) total_pages e
                            | None =>
                                let fetcher :=
                                  {| company_id := id; urlname := name;
                                     cookie_str := cookies;
                                     out_file := out_file_of name;
                                     concurrency := arg_concurrency args;
                                     limit := arg_limit args |} in
                                let '(pages_fetched, reviews_written) :=
                                  (run fetcher (site w) total_pages).2 in
                                {| r_url := url; r_index := index; r_success := true;
                                   r_urlname := Some name;
                                   r_reviews := reviews_written;
                                   r_pages := total_pages; r_error := None;
                                   r_timestamp := now w;
                                   r_output_file := Some (out_file_of name) |}
                            end
                    end
            end
        end
  end.

(** The site where no page can be fetched any more. *)
Definition pages_unreachable (net : Net) : Net :=
  {| seo_get := seo_get net;
     data_get := data_get net;
     page_get := fun _ _ _ => NoReply "Connection refused";
     random_random := random_random net;
     append_page := append_page net |}.

Definition without_pages (w : World) : World :=
  {| now := now w;
     mkdir_company_dir := mkdir_company_dir w;
     browser_of := browser_of w;
     meta_net := meta_net w;
     site := pages_unreachable (site w);
     session_error := session_error w |}.

(** CPython on ASCII text, on a system whose paths are separated by [/]. *)
Fixpoint ascii_lower (s : string) : string :=
  match s with
  | EmptyString => EmptyString
  | String a s' =>
      let n := N_of_ascii a in
      String (if ((65 <=? n) && (n <=? 90))%N then ascii_of_N (n + 32) else a)
        (ascii_lower s')
  end.

(** The longest run of characters that are neither white space nor a
    comma: what [[^\s,]+] takes. *)
Fixpoint url_body (s : string) : string :=
  match s with
  | EmptyString => EmptyString
  | String a s' =>
      if is_space a || Ascii.eqb a "," then EmptyString else String a (url_body s')
  end.

(** A match of [https?://[^\s,]+] that starts at the first character. *)
Definition url_at (s : string) : option string :=
  let after (scheme : string) :=
    let body := url_body (String.substring (String.length scheme)
                            (String.length s - String.length scheme) s) in
    if String.eqb body "" then None else Some (scheme +:+ body) in
  if startswith s "https://" then after "https://"%string
  else if startswith s "http://" then after "http://"%string
  else None.

(** [url_pattern.search(raw)]: the leftmost match, as [m.group(1)]. *)
Fixpoint ascii_url_search (s : string) : option string :=
  match s with
  | EmptyString => None
  | String _ s' =>
      match url_at s with
      | Some m => Some m
      | None => ascii_url_search s'
      end
  end.

Definition ascii_text : PyText :=
  {| chars_of := fun s => map N_of_ascii (list_ascii_of_string s);
     str_of := fun l => string_of_list_ascii (map ascii_of_N l);
     is_word_char := fun n => ascii_is_word (ascii_of_N n);
     is_space_char := fun n => is_space (ascii_of_N n);
     path_sep := "/";
     str_lower := ascii_lower;
     url_search := ascii_url_search |}.

(** The metadata names company 42, three pages are reported and every page
    holds two reviews. *)
Definition friendly_world : World :=
  {| now := "2025-01-01T00:00:00";
     mkdir_company_dir := fun _ => None;
     browser_of := fun _ _ => GotCookies [ {| c_name := "sid"; c_value := "abc" |} ];
     meta_net :=
       {| seo_get := fun _ _ =>
            Reply 200 (Json (JDict [("data"%string,
              JDict [("company"%string, JDict [("id"%string, JInt 42)]);
                     ("pagination"%string, JDict [("totalPages"%string, JInt 3)])])]));
          data_get := fun _ _ _ _ => NoReply "unused";
          page_get := fun _ _ _ => NoReply "unused";
          random_random := fun _ _ => 0%Q;
          append_page := fun _ => true |};
     site :=
       {| seo_get := fun _ _ =>
            Reply 200 (Json (JDict [("data"%string,
              JDict [("company"%string, JDict [("id"%string, JInt 42)]);
                     ("pagination"%string, JDict [("totalPages"%string, JInt 3)])])]));
          data_get := fun _ _ _ _ => NoReply "unused";
          page_get := fun _ _ _ =>
            Reply 200 (Json (JDict [("data"%string,
              JDict [("reviews"%string, JList [JDict []; JDict []])])]));
          random_random := fun _ _ => 0%Q;
          append_page := fun _ => true |};
     session_error := None |}.

Definition default_fetch_args : FetchArgs := {| arg_limit := 20; arg_concurrency := 5 |}.

(** ** Reading the companies *)

Definition url_candidates : list string :=
  ["url"; "company_url"; "link"; "website"; "review_url"; "firm_name";
   "company_name"; "name"]%string.

Definition in_list (x : string) (l : list string) : bool := existsb (String.eqb x) l.

(** The first candidate that is a header, else the first header. *)
Definition detect_column (headers : list string) : option string :=
  match find (fun candidate => in_list candidate headers) url_candidates with
  | Some candidate => Some candidate
  | None => head headers
  end.

Definition choose_column (headers : list string) (url_column : option string)
    : option string :=
  match url_column with
  | Some column => if String.eqb column "" then detect_column headers else Some column
  | None => detect_column headers
  end.

(** [row.get(key)] on a row of [csv.DictReader]: a cell is [None] where the
    line was too short. *)
Fixpoint row_get (key : string) (row : list (string * option string)) : option string :=
  match row with
  | [] => None
  | (k, cell) :: rest => if String.eqb k key then cell else row_get key rest
  end.

Fixpoint string_filter (keep : ascii -> bool) (s : string) : string :=
  match s with
  | EmptyString => EmptyString
  | String a s' =>
      if keep a then String a (string_filter keep s') else string_filter keep s'
  end.

Fixpoint string_forall (p : ascii -> bool) (s : string) : bool :=
  match s with
  | EmptyString => true
  | String a s' => p a && string_forall p s'
  end.

(** The class [[a-z0-9-]]. *)
Definition slug_char (a : ascii) : bool :=
  let n := Z.of_N (N_of_ascii a) in
  ((97 <=? n) && (n <=? 122)) || ((48 <=? n) && (n <=? 57)) || (n =? 45).

(** The slug of a company name: lower case, spaces and underscores turned
    into hyphens, everything else but [[a-z0-9-]] removed. *)
Definition slug_of `{PyText} (raw : string) : string :=
  let name := str_lower raw in
  let name := replace (replace name " " "-") "_" "-" in
  string_filter slug_char name.

Definition review_url (slug : string) : string :=
  ("https://www.ambitionbox.com/reviews/" +:+ slug +:+ "-reviews")%string.

(** What one cell that is not empty becomes. *)
Definition company_of_cell `{PyText} (raw : string) : string :=
  match url_search raw with
  | Some url => url
  | None =>
      if startswith raw "http://" || startswith raw "https://" then raw
      else review_url (slug_of raw)
  end.

Definition company_of_row `{PyRuntime} `{PyText} (column : option string)
    (row : list (string * option string)) : option string :=
  match column with
  | None => None
  | Some c =>
      if String.eqb c "" then None
      else
        let raw := str_strip (default EmptyString (row_get c row)) in
        if String.eqb raw "" then None else Some (company_of_cell raw)
  end.

(** [read_companies_from_csv] on the header and the rows that
    [csv.DictReader] reads from the file. *)
Definition read_companies_from_rows `{PyRuntime} `{PyText} (headers : list string)
    (rows : list (list (string * option string))) (url_column : option string)
    : list string :=
  omap (company_of_row (choose_column headers url_column)) rows.

(** ** The connection diagnosis ([diagnose_connection.py]) *)

Record BrowserConfig := {
  cfg_name : string;
  cfg_headless : bool;
  cfg_args : list string
}.

Definition configs : list BrowserConfig :=
  [ {| cfg_name := "Default (headless)"; cfg_headless := true; cfg_args := [] |};
    {| cfg_name := "With no-sandbox"; cfg_headless := true;
       cfg_args := ["--no-sandbox"; "--disable-dev-shm-usage"]%string |};
    {| cfg_name := "With ignore-certificate-errors"; cfg_headless := true;
       cfg_args := ["--no-sandbox"; "--ignore-certificate-errors";
                    "--disable-web-security"]%string |};
    {| cfg_name := "Non-headless (visible browser)"; cfg_headless := false;
       cfg_args := ["--no-sandbox"]%string |} ].

(** The loop of [test_playwright_ambitionbox]: [navigate] gives the text of
    the exception a configuration ends with, if any.  The result lists the
    configurations tried, in order, and the one returned. *)
Fixpoint try_configs (navigate : BrowserConfig -> option string)
    (todo : list BrowserConfig) : list BrowserConfig * option BrowserConfig :=
  match todo with
  | [] => ([], None)
  | config :: rest =>
      match navigate config with
      | None => ([config], Some config)
      | Some _ =>
          let '(tried, found) := try_configs navigate rest in
          (config :: tried, found)
      end
  end.

Definition test_playwright_ambitionbox (navigate : BrowserConfig -> option string)
    : list BrowserConfig * option BrowserConfig :=
  try_configs navigate configs.

(** The results of the five tests of [main]. *)
Record Diagnosis := {
  diag_dns : bool;
  diag_http : bool;
  diag_page : bool;
  diag_playwright_basic : bool;
  diag_working_config : option BrowserConfig
}.

Definition diag_playwright_ambitionbox (d : Diagnosis) : bool :=
  match diag_working_config d with Some _ => true | None => false end.

Inductive Recommendation :=
  | DnsIssue
  | ConnectivityIssue
  | PlaywrightIssue
  | AllTestsPassed (config : option BrowserConfig).

Inductive NextSteps := TryFallbackScraper | RunScraperNormally | NoNextStep.

(** The section printed under RECOMMENDATIONS. *)
Definition recommendation (d : Diagnosis) : Recommendation :=
  if negb (diag_dns d) then DnsIssue
  else if negb (diag_http d) then ConnectivityIssue
  else if negb (diag_playwright_ambitionbox d) then PlaywrightIssue
  else AllTestsPassed (diag_working_config d).

(** The section printed under NEXT STEPS. *)
Definition next_steps (d : Diagnosis) : NextSteps :=
  if diag_http d && negb (diag_playwright_ambitionbox d) then TryFallbackScraper
  else if diag_playwright_ambitionbox d then RunScraperNormally
  else NoNextStep.

(** Only the visible browser gets through. *)
Definition headless_blocked (config : BrowserConfig) : option string :=
  if cfg_headless config then Some "net::ERR_HTTP2_PROTOCOL_ERROR"%string else None.

(** * Verification *)

(** ** Built-ins *)

Lemma split_last_is_Some (c : ascii) (s : string) : is_Some (last (split c s)).
Proof.
  induction s as [|a s IH]; simpl; [by eexists|].
  destruct (Ascii.eqb a c).
  - destruct IH as [x Hx]. destruct (split c s); [done|]. by exists x.
  - destruct (split c s) as [|part parts]; [by eexists|].
    destruct parts; [by eexists|]. exact IH.
Qed.

Lemma py_range_nil (start stop : Z) : stop <= start -> py_range start stop = [].
Proof. intros Hle. unfold py_range, seqZ. by replace (Z.to_nat (stop - start)) with O by lia. Qed.

Lemma py_range_cons (start stop : Z) :
  start < stop -> py_range start stop = start :: py_range (start + 1) stop.
Proof.
  intros Hlt. unfold py_range.
  replace (stop - start) with (Z.succ (stop - (start + 1))) by lia.
  rewrite seqZ_cons by lia. f_equal. f_equal. lia.
Qed.

Lemma length_py_range (start stop : Z) :
  length (py_range start stop) = Z.to_nat (stop - start).
Proof. apply length_seqZ. Qed.

Lemma elem_of_py_range (start stop i : Z) : i ∈ py_range start stop <-> start <= i < stop.
Proof. unfold py_range. rewrite elem_of_seqZ. lia. Qed.

(** ** URL names *)

Lemma extract_urlname_from_url_final_segment (url : string) :
  extract_urlname_from_url url =
    Some (if endswith (final_segment url) "-reviews"
          then replace (final_segment url) "-reviews" ""
          else final_segment url).
Proof.
  unfold extract_urlname_from_url, final_segment.
  destruct (split_last_is_Some "/" (rstrip "/" url)) as [part ->]. simpl.
  by destruct (endswith part "-reviews").
Qed.

(** A final segment that does not end in ["-reviews"] is returned as it is. *)
Lemma extract_urlname_plain_segment (url : string) :
  endswith (final_segment url) "-reviews" = false ->
  extract_urlname_from_url url = Some (final_segment url).
Proof. intros Hplain. by rewrite extract_urlname_from_url_final_segment, Hplain. Qed.

(** The function never takes its [except] branch. *)
Lemma extract_urlname_is_Some (url : string) : is_Some (extract_urlname_from_url url).
Proof. rewrite extract_urlname_from_url_final_segment. by eexists. Qed.

(** Where the only occurrence of ["-reviews"] is the trailing one, [replace]
    removes exactly the suffix. *)
Lemma replace_only_suffix (stem : string) :
  no_inner_match stem = true ->
  replace (stem +:+ "-reviews") "-reviews" "" = stem.
Proof.
  unfold replace. induction stem as [|a stem IH]; intros Hno; [done|].
  cbn [no_inner_match] in Hno. apply andb_prop in Hno as [Hhere Hrest].
  change (String a stem +:+ "-reviews")%string with (String a (stem +:+ "-reviews")) in *.
  cbn [replace_from]. apply negb_true_iff in Hhere. rewrite Hhere.
  f_equal. by apply IH.
Qed.

(** C8 (code defect): for a company called "Trusted Reviews" the review page
    is [.../reviews/trusted-reviews-reviews]; stripping the trailing
    ["-reviews"] gives the identifier ["trusted-reviews"], but
    [extract_urlname_from_url] removes every occurrence and returns
    ["trusted"], so that the referer rebuilt from it names another page. *)
Theorem C8_replace_removes_inner_occurrences :
  let url := "https://www.ambitionbox.com/reviews/trusted-reviews-reviews"%string in
  final_segment url = "trusted-reviews-reviews"%string /\
  strip_suffix "-reviews" (final_segment url) = "trusted-reviews"%string /\
  extract_urlname_from_url url = Some "trusted"%string /\
  extract_urlname_from_url url <> Some (strip_suffix "-reviews" (final_segment url)).
Proof. repeat split; try reflexivity. discriminate. Qed.

(** ** Cookie capture *)

Lemma capture_attempts_launches (browser : Z -> BrowserRun) (url : string)
    (max_attempts : Z) (todo : list Z) :
  launches (capture_attempts browser url max_attempts todo).1 `prefix_of` todo.
Proof.
  induction todo as [|attempt rest IH]; simpl; [done|].
  destruct (capture_attempts browser url max_attempts rest) as [events r].
  destruct (browser attempt) as [[|c cookies]|e]; simpl.
  - by apply prefix_cons.
  - apply prefix_cons, prefix_nil.
  - destruct (attempt <? max_attempts - 1); simpl.
    + by apply prefix_cons.
    + apply prefix_cons, prefix_nil.
Qed.

(** The browser is launched at most [max_attempts] times. *)
Lemma capture_at_most_max_attempts (browser : Z -> BrowserRun) (url : string)
    (max_attempts : Z) :
  (length (launches (capture_cookies_visible_browser browser url max_attempts).1)
   <= Z.to_nat max_attempts)%nat.
Proof.
  unfold capture_cookies_visible_browser. cbv zeta.
  pose proof (capture_attempts_launches browser (ensure_scheme url) max_attempts
                (py_range 0 max_attempts)) as Hpre.
  apply prefix_length in Hpre. rewrite length_py_range in Hpre. lia.
Qed.

(** The caller always gets a pair: a cookie string and no error, or [None]
    and an error text that is not empty. *)
Lemma capture_attempts_marker (browser : Z -> BrowserRun) (url : string)
    (max_attempts : Z) (todo : list Z) :
  let r := (capture_attempts browser url max_attempts todo).2 in
  (exists cookie, r = (Some cookie, ""%string)) \/
  (exists msg, r = (None, msg) /\ msg <> ""%string).
Proof.
  induction todo as [|attempt rest IH]; simpl.
  - right. by eexists.
  - destruct (capture_attempts browser url max_attempts rest) as [events r].
    destruct (browser attempt) as [[|c cookies]|e]; simpl.
    + exact IH.
    + left. by eexists.
    + destruct (attempt <? max_attempts - 1); simpl; [exact IH|].
      right. by eexists.
Qed.

(** After an attempt that raised, the wait is [2 ** attempt] seconds. *)
Lemma capture_waits_when_raising (browser : Z -> BrowserRun) (url : string)
    (max_attempts : Z) :
  (forall a, exists e, browser a = BrowserRaised e) ->
  waits (capture_cookies_visible_browser browser url max_attempts).1
  = map (Z.pow 2) (py_range 0 (max_attempts - 1)).
Proof.
  intros Hraise. unfold capture_cookies_visible_browser. cbv zeta.
  generalize (ensure_scheme url) as u. intros u.
  generalize 0 as a. intros a.
  remember (Z.to_nat (max_attempts - a)) as n eqn:Hn.
  revert a Hn. induction n as [|n IH]; intros a Hn.
  - rewrite !py_range_nil by lia. done.
  - rewrite (py_range_cons a max_attempts) by lia. simpl.
    destruct (Hraise a) as [e ->].
    specialize (IH (a + 1) ltac:(lia)).
    destruct (capture_attempts browser u max_attempts (py_range (a + 1) max_attempts))
      as [events r].
    destruct (a <? max_attempts - 1) eqn:Hlast; simpl.
    + apply Z.ltb_lt in Hlast.
      rewrite (py_range_cons a (max_attempts - 1)) by lia. simpl. by f_equal.
    + apply Z.ltb_ge in Hlast. by rewrite py_range_nil by lia.
Qed.

(** After an attempt that found no cookie there is no wait at all. *)
Lemma capture_no_wait_without_exception (browser : Z -> BrowserRun) (url : string)
    (max_attempts : Z) :
  (forall a, exists cookies, browser a = GotCookies cookies) ->
  waits (capture_cookies_visible_browser browser url max_attempts).1 = [].
Proof.
  intros Hnone. unfold capture_cookies_visible_browser. cbv zeta.
  generalize (ensure_scheme url) as u. intros u.
  induction (py_range 0 max_attempts) as [|a rest IH]; simpl; [done|].
  destruct (Hnone a) as [cookies ->].
  destruct (capture_attempts browser u max_attempts rest) as [events r].
  by destruct cookies.
Qed.

(** C6 (code defect): when the first visit yields no cookie, the second
    launch follows at once, with no [2 ** attempt] wait in between; the wait
    is made only in the [except] branch, as the run whose first visit times
    out shows. *)
Theorem C6_no_backoff_after_zero_cookies :
  let url := "https://www.ambitionbox.com/reviews/infosys-reviews"%string in
  capture_cookies_visible_browser no_cookies_then_one url 3
    = ([Launch 0 url; Launch 1 url], (Some "sid=abc"%string, ""%string)) /\
  capture_cookies_visible_browser timeout_then_one url 3
    = ([Launch 0 url; Wait 1; Launch 1 url], (Some "sid=abc"%string, ""%string)) /\
  capture_cookies_visible_browser never_any_cookie url 3
    = ([Launch 0 url; Launch 1 url; Launch 2 url],
       (None, "All cookie capture attempts failed"%string)).
Proof. repeat split. Qed.

(** ** Metadata *)

Section Metadata.
Context `{PyRuntime}.

(** The exceptions the function swallows are exactly the cases in which
    the field cannot be reached. *)
Lemma extract_company_id_nested_id (seo_json : JSON) :
  extract_company_id seo_json =
    match nested_id seo_json with
    | Some cid => if truthy cid then py_int cid else None
    | None => None
    end.
Proof.
  assert (Htail : forall data : JSON,
    match
      (c ← py_get data "company" JNull;
       cid ← py_get (py_or c (JDict [])) "id" JNull;
       if truthy cid then n ← py_int cid; Some (Some n) else Some None)
    with Some r => r | None => None end
    = match (company ← field "company" data; field "id" company) with
      | Some cid => if truthy cid then py_int cid else None
      | None => None
      end).
  { intros data. destruct data as [| | | | | |items]; try reflexivity.
    cbn [py_get field mbind option_bind].
    destruct (assoc "company" items) as [c|]; cbn [from_option id]; [|reflexivity].
    unfold py_or. destruct (truthy c) eqn:Hc.
    - destruct c as [| | | | | |citems]; try reflexivity.
      cbn [py_get field mbind option_bind].
      destruct (assoc "id" citems) as [cid|]; cbn [from_option id]; [|reflexivity].
      destruct (truthy cid); [|reflexivity]. by destruct (py_int cid).
    - destruct c as [| | | | | |citems]; try reflexivity.
      by destruct citems. }
  unfold extract_company_id, nested_id.
  destruct seo_json as [| | | | | |items]; try reflexivity.
  cbn [py_get field mbind option_bind]. cbn [mbind option_bind].
  destruct (assoc "data" items) as [d|]; cbn [from_option id].
  - change (py_or d (JDict items)) with (if truthy d then d else JDict items).
    destruct (truthy d); apply Htail.
  - apply (Htail (JDict items)).
Qed.

(** C9 (amended): [extract_company_id] returns [None] exactly when the
    nested identifier is absent, falsy (null, 0, 0.0, false, an empty string
    or container) or rejected by [int()]; any other identifier [cid] gives
    [int(cid)], so every non-zero integer identifier is returned as it is.
    The function is total: it never raises. *)
Theorem C9_extract_company_id_amended (seo_json : JSON) :
  (forall n, n <> 0 -> nested_id seo_json = Some (JInt n) ->
     extract_company_id seo_json = Some n) /\
  (forall cid, nested_id seo_json = Some cid -> truthy cid = true ->
     extract_company_id seo_json = py_int cid) /\
  (extract_company_id seo_json = None <->
     nested_id seo_json = None \/
     exists cid, nested_id seo_json = Some cid /\
                 (truthy cid = false \/ py_int cid = None)).
Proof.
  rewrite extract_company_id_nested_id. repeat split.
  - intros n Hn ->. simpl. by destruct (Z.eqb_spec n 0).
  - by intros cid -> ->.
  - destruct (nested_id seo_json) as [cid|]; [|by left].
    intros Hnone. right. exists cid. split; [done|].
    destruct (truthy cid); [by right|by left].
  - intros [->|(cid & -> & [->| ->])]; try done. by destruct (truthy cid).
Qed.

Lemma read_total_pages_pagination_doc (n : Z) :
  read_total_pages (pagination_doc n) = Some n.
Proof. reflexivity. Qed.

Lemma discover_from_seo_gt (net : Net) (urlname cookie : string) (total : Z) :
  discover_from_seo net urlname cookie = Some total -> 1 < total.
Proof.
  unfold discover_from_seo.
  destruct (truthy _); [|done].
  destruct (read_total_pages _) as [t|]; simpl; [|done].
  destruct (Z.ltb_spec 1 t); [|done]. by intros [= <-].
Qed.

Lemma discover_from_data_gt (net : Net) (company_id : Z) (cookie : string)
    (limit total : Z) :
  discover_from_data net company_id cookie limit = Some total -> 1 < total.
Proof.
  unfold discover_from_data.
  destruct (data_get _ _ _ _ _) as [status [v|e]|e]; try done;
    destruct (status =? 200); try done.
  destruct (read_total_pages v) as [t|]; simpl; [|done].
  destruct (Z.ltb_spec 1 t); [|done]. by intros [= <-].
Qed.

(** C5: [discover_total_pages] is total and returns an integer that is at
    least 1; when the metadata reports at most one page the answer of the
    data endpoint decides, so metadata saying 1 and data saying 7 give 7;
    and when no phase reports more than one page, or both requests fail,
    the result is 1. *)
Theorem C5_discover_total_pages (net : Net) (company_id : Z)
    (urlname cookie : string) (limit : Z) :
  let pages := discover_total_pages net company_id urlname cookie limit in
  1 <= pages /\
  (forall m d,
     seo_get net urlname cookie = Reply 200 (Json (pagination_doc m)) ->
     data_get net company_id cookie 1 limit = Reply 200 (Json (pagination_doc d)) ->
     m <= 1 ->
     (1 < d -> pages = d) /\ (d <= 1 -> pages = 1)) /\
  (forall e1 e2,
     seo_get net urlname cookie = NoReply e1 ->
     data_get net company_id cookie 1 limit = NoReply e2 ->
     pages = 1) /\
  (discover_from_seo net urlname cookie = None ->
   discover_from_data net company_id cookie limit = None ->
   pages = 1).
Proof.
  cbv zeta. split; [|split; [|split]].
  - unfold discover_total_pages.
    destruct (discover_from_seo _ _ _) as [t|] eqn:Hseo.
    { apply discover_from_seo_gt in Hseo. lia. }
    destruct (discover_from_data _ _ _ _) as [t|] eqn:Hdata; [|lia].
    apply discover_from_data_gt in Hdata. lia.
  - intros m d Hseo Hdata Hm.
    unfold discover_total_pages, discover_from_seo, discover_from_data, probe_seo_meta.
    rewrite Hseo, Hdata. cbn -[read_total_pages Z.ltb].
    rewrite !read_total_pages_pagination_doc. cbn -[Z.ltb].
    destruct (Z.ltb_spec 1 m); [lia|].
    destruct (Z.ltb_spec 1 d); split; intros Hd; (done || lia).
  - intros e1 e2 Hseo Hdata.
    unfold discover_total_pages, discover_from_seo, discover_from_data, probe_seo_meta.
    by rewrite Hseo, Hdata.
  - intros Hseo Hdata. unfold discover_total_pages. by rewrite Hseo, Hdata.
Qed.

End Metadata.

(** C9 (as stated, refuted): the document
    [{"data": {"company": {"id": 0}}}] carries the numeric identifier 0, and
    [extract_company_id] returns [None] for it, because [0] is falsy. *)
Lemma C9_zero_identifier_is_dropped :
  nested_id zero_id_doc = Some (JInt 0) /\
  numeric (JInt 0) = true /\
  @extract_company_id ascii_runtime zero_id_doc = None /\
  ~ (forall seo_json n, nested_id seo_json = Some (JInt n) ->
       @extract_company_id ascii_runtime seo_json = Some n).
Proof.
  repeat split. intros Hclaim. by specialize (Hclaim zero_id_doc 0 eq_refl).
Qed.

Lemma C9_extract_company_id_amended_witness :
  @extract_company_id ascii_runtime
    (JDict [("company"%string, JDict [("id"%string, JInt 42)])]) = Some 42.
Proof.
  apply (@C9_extract_company_id_amended ascii_runtime
           (JDict [("company"%string, JDict [("id"%string, JInt 42)])])).
  - discriminate.
  - reflexivity.
Defined.

Lemma C5_discover_total_pages_witness :
  @discover_total_pages ascii_runtime one_then_seven 42 "infosys" "sid=abc" 20 = 7.
Proof.
  apply (@C5_discover_total_pages ascii_runtime one_then_seven 42 "infosys" "sid=abc" 20)
    with (m := 1); [reflexivity | reflexivity | lia | lia].
Defined.

(** ** The retry loop of a page *)

Section Fetcher.
Variables (self : CompanyFetcher) (net : Net).

Lemma py_range_split (a b c : Z) :
  a <= b <= c -> py_range a c = py_range a b ++ py_range b c.
Proof.
  intros Habc. unfold py_range.
  replace (c - a) with ((b - a) + (c - b)) by lia.
  rewrite seqZ_app by lia. do 2 f_equal. lia.
Qed.

(** Every pass through the loop body starts with a request. *)
Lemma fetch_attempts_head (page attempt : Z) (rest : list Z) :
  exists events,
    (fetch_attempts self net page (attempt :: rest)).1 = Request page attempt :: events.
Proof.
  simpl. destruct (fetch_attempts self net page rest) as [events r].
  destruct (page_get net (company_id self) page attempt) as [status [v|e]|e];
    repeat (match goal with |- context [if ?b then _ else _] => destruct b end);
    simpl; by eexists.
Qed.

(** Attempts answered by a rate limit are rounds of request and sleep, and
    the loop goes on with the remaining attempts. *)
Lemma fetch_attempts_rate_limited (page : Z) (todo rest : list Z) :
  (forall a, a ∈ todo -> rate_limited (page_get net (company_id self) page a) = true) ->
  fetch_attempts self net page (todo ++ rest)
  = (retry_rounds net page todo ++ (fetch_attempts self net page rest).1,
     (fetch_attempts self net page rest).2).
Proof.
  induction todo as [|a todo IH]; intros Hlimited.
  - simpl. by destruct (fetch_attempts self net page rest).
  - cbn [app fetch_attempts]. rewrite IH by (intros; apply Hlimited; by right).
    pose proof (Hlimited a ltac:(by left)) as Ha.
    destruct (page_get net (company_id self) page a) as [status body|e]; [|done].
    cbn [rate_limited] in Ha.
    destruct (Z.eqb_spec status 200) as [->|_]; [done|].
    by rewrite Ha.
Qed.

Lemma sleeps_retry_rounds (page : Z) (attempts : list Z) (events : list FetchEvent) :
  sleeps (retry_rounds net page attempts ++ events)
  = map (backoff net page) attempts ++ sleeps events.
Proof.
  induction attempts as [|a attempts IH]; [done|].
  cbn. by rewrite <- IH.
Qed.

Lemma requests_retry_rounds (page : Z) (attempts : list Z) :
  requests (retry_rounds net page attempts) = attempts.
Proof.
  induction attempts as [|a attempts IH]; [done|].
  cbn. by rewrite <- IH at 2.
Qed.

Lemma backoff_lower_bound (page attempt : Z) :
  (0 <= random_random net page attempt)%Q ->
  (inject_Z (2 ^ attempt) <= backoff net page attempt)%Q.
Proof.
  intros Hjitter. unfold backoff, BACKOFF_BASE.
  rewrite <- (Qplus_0_r (inject_Z (2 ^ attempt))) at 1.
  apply Qplus_le_compat; [apply Qle_refl | exact Hjitter].
Qed.

(** C4: when the first [N] answers (1 <= N < 5) are rate limits, the trace
    of the fetch begins with [N] rounds of request and sleep followed by
    the [N]-th retry, the sleep before that retry is
    [2 ** (N - 1) + random.random()], which is at least [2 ** (N - 1)]
    seconds; and a page answered by rate limits only makes exactly the five
    requests 0..4 and ends with the failure ["max_retries_exceeded"]. *)
Theorem C4_backoff_and_exhaustion (page : Z) :
  (forall a, 0 <= random_random net page a)%Q ->
  (forall N, 1 <= N < RETRIES ->
     (forall a, 0 <= a < N ->
        rate_limited (page_get net (company_id self) page a) = true) ->
     (exists rest,
        (fetch_page_json self net page).1
        = retry_rounds net page (py_range 0 N) ++ Request page N :: rest) /\
     sleeps (fetch_page_json self net page).1 !! Z.to_nat (N - 1)
     = Some (backoff net page (N - 1)) /\
     (inject_Z (2 ^ (N - 1)) <= backoff net page (N - 1))%Q) /\
  ((forall a, 0 <= a < RETRIES ->
      rate_limited (page_get net (company_id self) page a) = true) ->
   fetch_page_json self net page
   = (retry_rounds net page (py_range 0 RETRIES),
      (JNull, Some "max_retries_exceeded"%string)) /\
   requests (fetch_page_json self net page).1 = [0; 1; 2; 3; 4]).
Proof.
  intros Hjitter. split.
  - intros N HN Hlimited.
    assert (Hsplit : (fetch_page_json self net page).1
              = retry_rounds net page (py_range 0 N)
                  ++ (fetch_attempts self net page (py_range N RETRIES)).1).
    { unfold fetch_page_json. rewrite (py_range_split 0 N RETRIES) by lia.
      rewrite fetch_attempts_rate_limited; [done|].
      intros a Ha%elem_of_py_range. by apply Hlimited. }
    rewrite (py_range_cons N RETRIES) in Hsplit by lia.
    destruct (fetch_attempts_head page N (py_range (N + 1) RETRIES)) as [rest Hrest].
    rewrite Hrest in Hsplit. split; [by exists rest|]. split.
    + rewrite Hsplit, sleeps_retry_rounds.
      rewrite lookup_app_l by (rewrite length_map, length_py_range; lia).
      rewrite list_lookup_fmap. unfold py_range.
      rewrite lookup_seqZ_lt by lia. simpl. do 2 f_equal. lia.
    + by apply backoff_lower_bound.
  - intros Hlimited.
    assert (Hall : fetch_page_json self net page
              = (retry_rounds net page (py_range 0 RETRIES),
                 (JNull, Some "max_retries_exceeded"%string))).
    { unfold fetch_page_json.
      rewrite <- (app_nil_r (py_range 0 RETRIES)) at 1.
      rewrite fetch_attempts_rate_limited.
      - cbn [fetch_attempts fst snd]. by rewrite app_nil_r.
      - intros a Ha%elem_of_py_range. by apply Hlimited. }
    split; [exact Hall|]. rewrite Hall. cbn [fst]. by rewrite requests_retry_rounds.
Qed.

End Fetcher.

Lemma C4_backoff_and_exhaustion_witness :
  (sleeps (fetch_page_json sample_fetcher always_429 1).1 !! 2%nat
   = Some (backoff always_429 1 2) /\
   (inject_Z (2 ^ 2) <= backoff always_429 1 2)%Q) /\
  fetch_page_json sample_fetcher always_429 1
  = (retry_rounds always_429 1 (py_range 0 RETRIES),
     (JNull, Some "max_retries_exceeded"%string)).
Proof.
  assert (Hjitter : forall a, (0 <= random_random always_429 1 a)%Q).
  { intros a. unfold Qle. simpl. lia. }
  destruct (C4_backoff_and_exhaustion sample_fetcher always_429 1 Hjitter)
    as [Hretry Hexhaust].
  split.
  - destruct (Hretry 3) as (_ & Hsleep & Hbound).
    + unfold RETRIES. lia.
    + intros a Ha. reflexivity.
    + split; [exact Hsleep | exact Hbound].
  - apply Hexhaust. intros a Ha. reflexivity.
Defined.

(** ** The windows of a fetch *)

Section Windows.
Variables (self : CompanyFetcher) (net : Net).


Lemma process_page_count_nonneg (page : Z) : 0 <= (process_page self net page).2.
Proof.
  unfold process_page.
  destruct (fetch_page_json self net page).2 as [data err].
  destruct (is_none data); [done|].
  destruct (reviews_of data) as [[| | | | |reviews|]|]; try done.
  destruct (append_page net page); simpl; lia.
Qed.

Lemma tally_pages (pages : list Z) (fetched written : Z) :
  fold_left tally (map (process_page self net) pages) (fetched, written)
  = (fetched + Z.of_nat (length (filter (fun p => page_ok self net p = true) pages)),
     written + sum_Z (map (page_records self net) pages)).
Proof.
  revert fetched written.
  induction pages as [|p pages IH]; intros fetched written; simpl.
  - f_equal; lia.
  - rewrite filter_cons. unfold page_records at 1.
    destruct (process_page self net p) as [ok cnt] eqn:Hpage.
    assert (Hok : page_ok self net p = ok) by (unfold page_ok; by rewrite Hpage).
    rewrite Hok. destruct ok; simpl; rewrite IH; f_equal; lia.
Qed.

(** The loop of [run], window after window. *)
Lemma run_fold (total_pages : Z) (starts : list Z) (windows : list (list Z))
    (counts : Z * Z) :
  fold_left
    (fun '(windows, counts) start =>
       let tasks := window total_pages start in
       let results := map (process_page self net) tasks in
       (windows ++ [tasks], fold_left tally results counts))
    starts (windows, counts)
  = (windows ++ map (window total_pages) starts,
     fold_left tally
       (map (process_page self net) (concat (map (window total_pages) starts)))
       counts).
Proof.
  revert windows counts.
  induction starts as [|start starts IH]; intros windows counts; simpl.
  - by rewrite app_nil_r.
  - rewrite IH. rewrite <- app_assoc. simpl.
    by rewrite map_app, fold_left_app.
Qed.


(** The windows partition the pages, in order. *)
Lemma concat_windows (total_pages : Z) (fuel : nat) (start : Z) :
  (Z.to_nat (total_pages + 1 - start) <= fuel)%nat ->
  concat (map (window total_pages)
            (range_step_from fuel start (total_pages + 1) batch_size))
  = py_range start (total_pages + 1).
Proof.
  revert start. induction fuel as [|fuel IH]; intros start Hfuel; simpl.
  - by rewrite py_range_nil by lia.
  - destruct (Z.ltb_spec start (total_pages + 1)) as [Hlt|Hge]; simpl.
    + rewrite IH by (unfold batch_size; lia). unfold window, batch_size.
      destruct (Z.le_gt_cases (start + 50) (total_pages + 1)).
      * rewrite Z.min_l by lia. symmetry. apply py_range_split. lia.
      * rewrite Z.min_r by lia.
        rewrite (py_range_nil (start + 50)) by lia. by rewrite app_nil_r.
    + by rewrite py_range_nil by lia.
Qed.


End Windows.


(** ** The batch loop *)

Section Batch.
Context `{PyRuntime}.
Variables (env : BatchEnv) (companies : list string) (total : Z).

Lemma batch_step_shape (i : Z) (st st' : BatchState) (events : list Event)
    (c : option Raised) :
  batch_step env companies total i st = (events, st', c) ->
  StepShape env i (st_progress st) events (st_progress st') c.
Proof.
  unfold batch_step, leave, save.
  destruct (py_index companies i) as [company|]; [|intros [= <- <- <-]; constructor].
  destruct (String.eqb (str_strip company) ""); [intros [= <- <- <-]; constructor|].
  destruct (company_run env i (str_strip company)) as [result|[|e]] eqn:Hrun.
  - destruct (i <? total - 1).
    + destruct (pacing_sleep env i) as [[|e]|]; intros [= <- <- <-]; simpl;
        econstructor; try done; constructor.
    + intros [= <- <- <-]; simpl. econstructor; [done|constructor].
  - intros [= <- <- <-]. by constructor.
  - intros [= <- <- <-]. by constructor.
Qed.

Lemma batch_step_disk (i : Z) (st st' : BatchState) (events : list Event)
    (c : option Raised) :
  batch_step env companies total i st = (events, st', c) ->
  st_disk st' = disk_after (st_disk st) events.
Proof.
  unfold batch_step, leave, save.
  destruct (py_index companies i) as [company|]; [|by intros [= <- <- <-]].
  destruct (String.eqb (str_strip company) ""); [by intros [= <- <- <-]|].
  destruct (company_run env i (str_strip company)) as [result|[|e]].
  - destruct (i <? total - 1); [|by intros [= <- <- <-]].
    by destruct (pacing_sleep env i) as [[|e]|]; intros [= <- <- <-].
  - by intros [= <- <- <-].
  - by intros [= <- <- <-].
Qed.

(** Induction over the loop: a property of the visited indices, the
    checkpoint in memory before and after, the events and the way the run
    ends holds when it holds for the empty loop, for a pass that ends the
    run and for a pass followed by the rest of the loop. *)
Lemma batch_loop_ind
    (P : list Z -> Progress -> list Event -> Progress -> option Raised -> Prop) :
  (forall cur, P [] cur [] cur None) ->
  (forall i rest cur events p exn,
     StepShape env i cur events p (Some exn) ->
     P (i :: rest) cur events p (Some exn)) ->
  (forall i rest cur events p events' p' c',
     StepShape env i cur events p None ->
     P rest p events' p' c' ->
     P (i :: rest) cur (events ++ events') p' c') ->
  forall todo st,
    P todo (st_progress st)
      (batch_loop env companies total todo st).1.1
      (st_progress (batch_loop env companies total todo st).1.2)
      (batch_loop env companies total todo st).2.
Proof.
  intros Hnil Hstop Hnext todo.
  induction todo as [|i rest IH]; intros st; simpl; [apply Hnil|].
  destruct (batch_step env companies total i st) as [[events st1] c] eqn:Hstep.
  apply batch_step_shape in Hstep.
  destruct c as [exn|]; simpl; [by apply Hstop|].
  specialize (IH st1).
  destruct (batch_loop env companies total rest st1) as [[events' st'] c'].
  simpl in *. by eapply Hnext.
Qed.

Lemma batch_loop_disk (todo : list Z) (st : BatchState) :
  st_disk (batch_loop env companies total todo st).1.2
  = disk_after (st_disk st) (batch_loop env companies total todo st).1.1.
Proof.
  revert st. induction todo as [|i rest IH]; intros st; simpl; [done|].
  destruct (batch_step env companies total i st) as [[events st1] c] eqn:Hstep.
  apply batch_step_disk in Hstep.
  destruct c as [exn|]; simpl; [done|].
  specialize (IH st1).
  destruct (batch_loop env companies total rest st1) as [[events' st'] c'].
  simpl in *. unfold disk_after in *. by rewrite fold_left_app, <- Hstep.
Qed.

Lemma progress_after_app (p : Progress) (events events' : list Event) :
  progress_after p (events ++ events') = progress_after (progress_after p events) events'.
Proof. apply fold_left_app. Qed.

Lemma step_progress_after (i : Z) (cur p : Progress) (events : list Event)
    (c : option Raised) :
  StepShape env i cur events p c -> progress_after cur events = p.
Proof. intros [| | | |????? _ []]; reflexivity. Qed.

(** The loop visits the indices in order and, unless an exception ends it,
    all of them. *)
Lemma batch_loop_visited (todo : list Z) (st : BatchState) :
  visited (batch_loop env companies total todo st).1.1 `prefix_of` todo /\
  ((batch_loop env companies total todo st).2 = None ->
   visited (batch_loop env companies total todo st).1.1 = todo).
Proof.
  apply (batch_loop_ind (fun todo _ events _ c =>
           visited events `prefix_of` todo /\ (c = None -> visited events = todo))).
  - done.
  - intros i rest cur events p exn Hshape. split; [|done].
    inversion Hshape as [| | | |????? _ Hpause]; subst;
      try inversion Hpause; subst; simpl;
      first [apply prefix_nil | apply prefix_cons, prefix_nil].
  - intros i rest cur events p events' p' c' Hshape [IHpre IHall].
    unfold visited in *. rewrite omap_app.
    inversion Hshape as [| | | |????? _ Hpause]; subst;
      try inversion Hpause; subst; simpl;
      (split; [by apply prefix_cons | intros Hc; f_equal; by apply IHall]).
Qed.

(** Only visited indices are attempted. *)
Lemma batch_loop_attempted (todo : list Z) (st : BatchState) :
  Forall (fun i => i ∈ todo /\ is_Some (py_index companies i))
    (attempted (batch_loop env companies total todo st).1.1).
Proof.
  revert st. induction todo as [|i rest IH]; intros st; simpl; [constructor|].
  destruct (batch_step env companies total i st) as [[events st1] c] eqn:Hstep.
  assert (Hhere : Forall (fun j => j ∈ i :: rest /\ is_Some (py_index companies j))
                    (attempted events)).
  { revert Hstep. unfold batch_step, leave, save.
    destruct (py_index companies i) as [company|] eqn:Hi;
      [|intros [= <- <- <-]; constructor].
    assert (i ∈ i :: rest /\ is_Some (py_index companies i))
      by (split; [by left | by rewrite Hi]).
    destruct (String.eqb (str_strip company) ""); [intros [= <- <- <-]; constructor|].
    destruct (company_run env i (str_strip company)) as [result|[|e]].
    - destruct (i <? total - 1);
        [destruct (pacing_sleep env i) as [[|e]|]|];
        intros [= <- <- <-]; by repeat constructor.
    - intros [= <- <- <-]; by repeat constructor.
    - intros [= <- <- <-]; by repeat constructor. }
  destruct c as [exn|]; simpl; [done|].
  specialize (IH st1).
  destruct (batch_loop env companies total rest st1) as [[events' st'] c'].
  simpl in *. unfold attempted in *. rewrite omap_app. apply Forall_app. split; [done|].
  eapply Forall_impl; [exact IH|]. intros j [Hj ?]. split; [by right|done].
Qed.

(** In one pass an [Attempted] event comes first, and the save of its
    result follows it at once. *)
Lemma step_split (i0 i : Z) (cur p : Progress) (events pre post : list Event)
    (c : option Raised) (url : string) :
  StepShape env i0 cur events p c ->
  events = pre ++ Attempted i url :: post ->
  pre = [] /\
  forall result, company_run env i url = inl result ->
    exists w rest, post = Saved (record_result cur result i) w :: rest.
Proof.
  intros Hshape Hsplit.
  destruct Hshape as [| |url0 e Hrun|url0 w Hrun|url0 result0 w tail c Hrun Hpause].
  - by destruct pre.
  - by destruct pre as [|? [|? ?]].
  - destruct pre as [|? [|? ?]]; simplify_eq/=. split; [done|]. congruence.
  - destruct pre as [|? [|? [|? ?]]]; simplify_eq/=. split; [done|]. congruence.
  - destruct pre as [|e1 pre]; simplify_eq/=.
    + split; [done|]. intros result Hresult.
      assert (result = result0) as -> by congruence. by eexists _, _.
    + destruct Hpause; do 4 (try (destruct pre as [|? pre]; simplify_eq/=)).
Qed.

Lemma entries_record_result (cur : Progress) (result : Result) (i : Z) :
  entries (record_result cur result i) = S (entries cur).
Proof.
  unfold entries, record_result.
  destruct (r_success result); simpl; rewrite length_app; simpl; lia.
Qed.

Lemma step_entries (i : Z) (cur p : Progress) (events : list Event) :
  StepShape env i cur events p None ->
  entries p = (entries cur + length (attempted events))%nat.
Proof.
  intros Hshape. inversion Hshape as [| | | |????? _ Hpause]; subst; simpl; [lia|].
  rewrite entries_record_result. inversion Hpause; subst; simpl; lia.
Qed.

(** Every target whose [process_company] returned is followed at once by
    the save of the checkpoint in memory extended by its result, with
    [last_index] set to its index; that checkpoint holds one entry for each
    target attempted so far. *)
Lemma batch_loop_saves_each_attempt (todo : list Z) (st : BatchState)
    (pre post : list Event) (i : Z) (url : string) (result : Result) :
  (batch_loop env companies total todo st).1.1 = pre ++ Attempted i url :: post ->
  company_run env i url = inl result ->
  (exists w rest,
     post = Saved (record_result (progress_after (st_progress st) pre) result i) w
              :: rest) /\
  entries (progress_after (st_progress st) pre)
  = (entries (st_progress st) + length (attempted pre))%nat.
Proof.
  revert pre post i url result.
  apply (batch_loop_ind (fun _ cur events _ _ =>
    forall pre post i url result,
      events = pre ++ Attempted i url :: post ->
      company_run env i url = inl result ->
      (exists w rest,
         post = Saved (record_result (progress_after cur pre) result i) w :: rest) /\
      entries (progress_after cur pre) = (entries cur + length (attempted pre))%nat)).
  - intros cur pre post i url result Hsplit. by destruct pre.
  - intros i0 rest cur events p exn Hshape pre post i url result Hsplit Hrun.
    destruct (step_split _ _ _ _ _ _ _ _ _ Hshape Hsplit) as [-> Hsave].
    split; [by apply Hsave|]. simpl. lia.
  - intros i0 rest cur events p events' p' c' Hshape IH pre post i url result Hsplit Hrun.
    symmetry in Hsplit. apply app_eq_app in Hsplit as [mid [[-> ->]|[-> Hmid]]].
    + destruct (IH mid post i url result eq_refl Hrun) as [(w & tail & ->) Hentries].
      rewrite progress_after_app, (step_progress_after _ _ _ _ _ Hshape).
      split; [by eexists _, _|].
      rewrite Hentries, (step_entries _ _ _ _ Hshape).
      unfold attempted. rewrite omap_app, length_app. lia.
    + destruct mid as [|e mid]; simplify_eq/=.
      * rewrite app_nil_r in *.
        destruct (IH [] post i url result eq_refl Hrun) as [(w & tail & ->) Hentries].
        rewrite (step_progress_after _ _ _ _ _ Hshape).
        split; [by eexists _, _|].
        simpl in Hentries. rewrite (step_entries _ _ _ _ Hshape). lia.
      * destruct (step_split _ _ _ _ _ _ _ _ _ Hshape eq_refl) as [-> Hsave].
        destruct (Hsave result Hrun) as (w & tail & ->).
        split; [by eexists _, _|]. simpl. lia.
Qed.

Lemma last_index_record_result (cur : Progress) (result : Result) (i : Z) :
  last_index (record_result cur result i) = i.
Proof. unfold record_result. by destruct (r_success result). Qed.

Lemma extends_refl (p : Progress) : extends p p.
Proof. by split. Qed.

Lemma extends_trans (p q r : Progress) : extends p q -> extends q r -> extends p r.
Proof. intros [] []. split; by etrans. Qed.

Lemma extends_record_result (cur : Progress) (result : Result) (i : Z) :
  extends cur (record_result cur result i).
Proof.
  unfold extends, record_result.
  destruct (r_success result); simpl; split; done || by apply prefix_app_r.
Qed.

(** One pass appends the result it got, if any, and removes nothing. *)
Lemma step_appends (i : Z) (cur p : Progress) (events : list Event)
    (c : option Raised) :
  StepShape env i cur events p c ->
  processed p = processed cur ++ successes (outcomes env events) /\
  failed p = failed cur ++ failures (outcomes env events) /\
  Forall (extends cur) (checkpoints events) /\
  extends cur p.
Proof.
  intros Hshape.
  destruct Hshape as [| |url e Hrun|url w Hrun|url result w tail c Hrun Hpause].
  - simpl. rewrite !app_nil_r. repeat split; by try constructor.
  - simpl. rewrite !app_nil_r. repeat split; by try constructor.
  - simpl. rewrite Hrun. simpl. rewrite !app_nil_r. repeat split; by try constructor.
  - simpl. rewrite Hrun. simpl. rewrite !app_nil_r.
    repeat split; try done. constructor; [apply extends_refl | constructor].
  - assert (Houtcomes : outcomes env (Attempted i url
              :: Saved (record_result cur result i) w :: tail) = [result]).
    { simpl. rewrite Hrun. by destruct Hpause. }
    rewrite Houtcomes. unfold successes, failures. rewrite !filter_cons, !filter_nil.
    pose proof (extends_record_result cur result i) as Hext.
    split; [|split; [|split; [|done]]].
    + unfold record_result. destruct (r_success result); simpl; by rewrite ?app_nil_r.
    + unfold record_result. destruct (r_success result); simpl; by rewrite ?app_nil_r.
    + destruct Hpause; simpl; repeat (apply Forall_cons; split; [exact Hext|]);
        apply Forall_nil_2.
Qed.

(** The run appends the results of the targets it attempted to the lists it
    started from, and every checkpoint it saves keeps the entries it
    started from. *)
Lemma batch_loop_appends (todo : list Z) (st : BatchState) :
  let r := batch_loop env companies total todo st in
  processed (st_progress r.1.2)
  = processed (st_progress st) ++ successes (outcomes env r.1.1) /\
  failed (st_progress r.1.2)
  = failed (st_progress st) ++ failures (outcomes env r.1.1) /\
  Forall (extends (st_progress st)) (checkpoints r.1.1).
Proof.
  cbv zeta.
  apply (batch_loop_ind (fun _ cur events p' _ =>
    processed p' = processed cur ++ successes (outcomes env events) /\
    failed p' = failed cur ++ failures (outcomes env events) /\
    Forall (extends cur) (checkpoints events))).
  - intros cur. simpl. rewrite !app_nil_r. by repeat split.
  - intros i rest cur events p exn Hshape.
    by destruct (step_appends _ _ _ _ _ Hshape) as (? & ? & ? & _).
  - intros i rest cur events p events' p' c' Hshape (Hproc & Hfail & Hsaved).
    destruct (step_appends _ _ _ _ _ Hshape) as (Hproc1 & Hfail1 & Hsaved1 & Hext).
    unfold successes, failures, outcomes, checkpoints in *.
    rewrite !omap_app, !filter_app, !app_assoc, <- Hproc1, <- Hfail1.
    split; [done|]. split; [done|].
    apply Forall_app. split; [done|].
    eapply Forall_impl; [exact Hsaved|]. intros q Hq. by eapply extends_trans.
Qed.

(** A checkpoint saved in a pass holds the lists the pass started from,
    followed by the result the pass got before the save. *)
Lemma step_saved (i : Z) (cur p q : Progress) (events pre post : list Event)
    (c : option Raised) (w : WriteOutcome) :
  StepShape env i cur events p c ->
  events = pre ++ Saved q w :: post ->
  processed q = processed cur ++ successes (outcomes env pre) /\
  failed q = failed cur ++ failures (outcomes env pre).
Proof.
  intros Hshape Hsplit.
  destruct Hshape as [| |url e Hrun|url w0 Hrun|url result w0 tail c Hrun Hpause].
  - by destruct pre.
  - by destruct pre as [|? [|? ?]].
  - by destruct pre as [|? [|? ?]].
  - destruct pre as [|? [|? [|? ?]]]; simplify_eq/=.
    rewrite Hrun. simpl. by rewrite !app_nil_r.
  - assert (Hrecord :
      processed (record_result cur result i) = processed cur ++ successes [result] /\
      failed (record_result cur result i) = failed cur ++ failures [result]).
    { unfold successes, failures. rewrite !filter_cons, !filter_nil.
      unfold record_result. destruct (r_success result); simpl; by rewrite ?app_nil_r. }
    destruct Hpause; do 5 (try (destruct pre as [|? pre]; simplify_eq/=));
      rewrite Hrun; exact Hrecord.
Qed.

(** Every checkpoint the run saves holds the lists the run started from,
    followed by the results of the targets completed before that save. *)
Lemma batch_loop_saved_accumulates (todo : list Z) (st : BatchState)
    (pre post : list Event) (q : Progress) (w : WriteOutcome) :
  (batch_loop env companies total todo st).1.1 = pre ++ Saved q w :: post ->
  processed q = processed (st_progress st) ++ successes (outcomes env pre) /\
  failed q = failed (st_progress st) ++ failures (outcomes env pre).
Proof.
  revert pre post q w.
  apply (batch_loop_ind (fun _ cur events _ _ =>
    forall pre post q w,
      events = pre ++ Saved q w :: post ->
      processed q = processed cur ++ successes (outcomes env pre) /\
      failed q = failed cur ++ failures (outcomes env pre))).
  - intros cur pre post q w Hsplit. by destruct pre.
  - intros i rest cur events p exn Hshape pre post q w Hsplit.
    by eapply step_saved.
  - intros i rest cur events p events' p' c' Hshape IH pre post q w Hsplit.
    destruct (step_appends _ _ _ _ _ Hshape) as (Hproc & Hfail & _ & _).
    symmetry in Hsplit. apply app_eq_app in Hsplit as [mid [[-> ->]|[-> Hmid]]].
    + destruct (IH mid post q w eq_refl) as [IHproc IHfail].
      unfold successes, failures, outcomes in *.
      rewrite !omap_app, !filter_app, !app_assoc, <- Hproc, <- Hfail. by split.
    + destruct mid as [|e mid]; simplify_eq/=.
      * rewrite app_nil_r in *.
        destruct (IH [] post q w eq_refl) as [IHproc IHfail].
        simpl in IHproc, IHfail. rewrite app_nil_r in IHproc, IHfail.
        rewrite IHproc, IHfail. by split.
      * by eapply step_saved.
Qed.

(** While every write succeeds, the file holds the checkpoint in memory
    between two passes and when the loop ends. *)
Lemma batch_loop_disk_stored (todo : list Z) (st : BatchState) :
  (forall n, checkpoint_write env n = Written) ->
  st_disk st = Stored (st_progress st) ->
  st_disk (batch_loop env companies total todo st).1.2
  = Stored (st_progress (batch_loop env companies total todo st).1.2).
Proof.
  intros Hwritten. revert st. induction todo as [|i rest IH]; intros st Hst; [done|].
  cbn [batch_loop].
  destruct (batch_step env companies total i st) as [[events st1] c] eqn:Hstep.
  assert (Hst1 : st_disk st1 = Stored (st_progress st1)).
  { revert Hstep. unfold batch_step, leave, save. rewrite !Hwritten.
    destruct (py_index companies i) as [company|]; [|by intros [= <- <- <-]].
    destruct (String.eqb (str_strip company) ""); [by intros [= <- <- <-]|].
    destruct (company_run env i (str_strip company)) as [result|[|e]].
    - destruct (i <? total - 1); [|by intros [= <- <- <-]].
      destruct (pacing_sleep env i) as [[|e]|]; try by intros [= <- <- <-].
      rewrite Hwritten. by intros [= <- <- <-].
    - by intros [= <- <- <-].
    - by intros [= <- <- <-]. }
  destruct c as [exn|]; [done|].
  specialize (IH st1 Hst1).
  by destruct (batch_loop env companies total rest st1) as [[events' st'] c'].
Qed.

Lemma py_range_sorted (start stop : Z) : StronglySorted Z.lt (py_range start stop).
Proof.
  remember (Z.to_nat (stop - start)) as n eqn:Hn. revert start Hn.
  induction n as [|n IH]; intros start Hn.
  - rewrite py_range_nil by lia. constructor.
  - rewrite py_range_cons by lia. constructor; [apply IH; lia|].
    apply Forall_forall. intros x Hx%elem_of_py_range. lia.
Qed.

(** The values of [last_index] a run saves never decrease; they are indices
    the loop visited, unless the run is interrupted before any target
    completes, when the one value saved is the value loaded. *)
Lemma batch_loop_saved_indices (todo : list Z) (st : BatchState) :
  StronglySorted Z.lt todo ->
  let saved := saved_indices (batch_loop env companies total todo st).1.1 in
  StronglySorted Z.le saved /\
  (Forall (fun x => x ∈ todo) saved \/ saved = [last_index (st_progress st)]).
Proof.
  cbv zeta.
  apply (batch_loop_ind (fun todo cur events _ _ =>
    StronglySorted Z.lt todo ->
    StronglySorted Z.le (saved_indices events) /\
    (Forall (fun x => x ∈ todo) (saved_indices events)
     \/ saved_indices events = [last_index cur]))).
  - intros cur _. split; [constructor|]. left. constructor.
  - intros i rest cur events p exn Hshape _.
    destruct Hshape as [| |url e Hrun|url w Hrun|url result w tail c Hrun Hpause].
    + split; [constructor|]. left. constructor.
    + split; [constructor|]. left. constructor.
    + split; [constructor|]. left. constructor.
    + split; [repeat constructor|]. by right.
    + unfold saved_indices. destruct Hpause; simpl;
        rewrite !last_index_record_result;
        (split; [repeat constructor; lia | left; repeat constructor]).
  - intros i rest cur events p events' p' c' Hshape IH Hsorted.
    apply StronglySorted_inv in Hsorted as [Hrest Hlt].
    destruct (IH Hrest) as [IHsorted IHin].
    unfold saved_indices, checkpoints in *. rewrite omap_app, fmap_app.
    inversion Hshape as [| | | |url result w tail c Hrun Hpause]; subst.
    + simpl. split; [done|]. destruct IHin as [IHin|IHin]; [left|by right].
      eapply Forall_impl; [exact IHin|]. intros x Hx. by right.
    + assert (Hhere : last_index <$> omap (fun e => match e with
                          | Saved p _ => Some p | _ => None end)
                        (Attempted i url :: Saved (record_result cur result i) w :: tail)
                      = [i]).
      { inversion Hpause; subst; simpl; by rewrite last_index_record_result. }
      rewrite Hhere. simpl. rewrite last_index_record_result in IHin.
      destruct IHin as [IHin|IHin].
      * split.
        -- constructor; [done|]. apply Forall_forall. intros x Hx.
           rewrite Forall_forall in IHin, Hlt.
           specialize (Hlt x (IHin x Hx)). lia.
        -- left. constructor; [by left|].
           eapply Forall_impl; [exact IHin|]. intros x Hx. by right.
      * rewrite IHin. split; [repeat constructor; lia|].
        left. repeat constructor.
Qed.

Lemma disk_after_app (disk : CheckpointFile) (events events' : list Event) :
  disk_after disk (events ++ events') = disk_after (disk_after disk events) events'.
Proof. apply fold_left_app. Qed.

(** A write that succeeds leaves exactly the checkpoint it was given. *)
Lemma disk_after_written (disk : CheckpointFile) (pre : list Event) (p : Progress) :
  disk_after disk (pre ++ [Saved p Written]) = Stored p.
Proof. by rewrite disk_after_app. Qed.

(** While every checkpoint saved keeps the entries of [p0], every document
    on disk does; the file is unreadable only after a write that failed
    once the file was truncated. *)
Lemma disk_after_keeps (p0 : Progress) (events : list Event) (disk : CheckpointFile) :
  Forall (extends p0) (checkpoints events) ->
  (exists p, disk = Stored p /\ extends p0 p) ->
  match disk_after disk events with
  | Stored p => extends p0 p
  | Unreadable => exists q, Saved q FailedTruncated ∈ events
  | NoFile => False
  end.
Proof.
  induction events as [|e events IH] using rev_ind; intros Hsaved (p & -> & Hp); [done|].
  unfold checkpoints in Hsaved. rewrite omap_app in Hsaved.
  apply Forall_app in Hsaved as [Hsaved He].
  specialize (IH Hsaved ltac:(by eexists)).
  rewrite disk_after_app.
  destruct e as [i|i url|q w|i]; simpl;
    try (destruct (disk_after (Stored p) events); try done;
         destruct IH as [q' Hq']; exists q'; apply elem_of_app; by left).
  destruct w; simpl.
  - by inversion He.
  - destruct (disk_after (Stored p) events); try done.
    destruct IH as [q' Hq']. exists q'. apply elem_of_app. by left.
  - exists q. apply elem_of_app. right. by left.
Qed.

End Batch.

(** ** The claims on the batch processor and the entry point *)

Section BatchClaims.
Context `{PyRuntime}.

(** C1: in resume mode with a stored checkpoint whose [last_index] is [k]
    the loop starts at [k + 1]: the indices it visits are an initial part of
    [range(k + 1, total)], all of it when no exception ends the run, and
    every target it attempts has an index, and a place in the list, above
    [k]; without resume mode the loop starts at 0 whatever the checkpoint
    file holds. *)
Theorem C1_resume_starts_after_last_index (env : BatchEnv) (companies : list string)
    (rs : bool) (p : Progress) (disk : CheckpointFile) :
  let k := last_index p in
  let total := Z.of_nat (length companies) in
  let resumed := process_batch env companies {| resume := true; reset := rs |} (Stored p) in
  let fresh := process_batch env companies {| resume := false; reset := rs |} disk in
  start_index {| resume := true; reset := rs |} (load_batch_progress (Stored p)) = k + 1 /\
  visited resumed.1.1 `prefix_of` py_range (k + 1) total /\
  (resumed.2 = None -> visited resumed.1.1 = py_range (k + 1) total) /\
  Forall (fun i => k < i /\ k < position companies i) (attempted resumed.1.1) /\
  start_index {| resume := false; reset := rs |} (load_batch_progress disk) = 0 /\
  visited fresh.1.1 `prefix_of` py_range 0 total /\
  (fresh.2 = None -> visited fresh.1.1 = py_range 0 total).
Proof.
  cbv zeta. unfold process_batch. cbn [start_index resume load_batch_progress].
  split; [done|]. split; [apply batch_loop_visited|].
  split; [apply batch_loop_visited|]. split.
  - eapply Forall_impl; [apply batch_loop_attempted|].
    intros i [Hi%elem_of_py_range _]. cbv beta in *. unfold position.
    destruct (i <? 0); lia.
  - split; [done|]. split; apply batch_loop_visited.
Qed.

(** C2 (amended): after each target whose [process_company] returned, at
    index [i], the next event of the run is the save of the checkpoint in
    memory extended by that result, with [last_index = i] and with one
    entry more than the entries loaded plus the targets attempted before;
    that save comes before the next target is attempted.  The file holds
    what the saves leave: a write that succeeds leaves exactly that
    checkpoint, a write that fails is swallowed.  The values of
    [last_index] saved in a run never decrease, and in resume mode none is
    below the value loaded. *)
Theorem C2_checkpoint_saved_after_each_target (env : BatchEnv)
    (companies : list string) (args : Args) (disk : CheckpointFile) :
  let p0 := load_batch_progress disk in
  let r := process_batch env companies args disk in
  (forall pre i url post result,
     r.1.1 = pre ++ Attempted i url :: post ->
     company_run env i url = inl result ->
     exists w rest,
       post = Saved (record_result (progress_after p0 pre) result i) w :: rest /\
       last_index (record_result (progress_after p0 pre) result i) = i /\
       entries (record_result (progress_after p0 pre) result i)
       = S (entries p0 + length (attempted pre))) /\
  st_disk r.1.2 = disk_after disk r.1.1 /\
  (forall pre q post,
     r.1.1 = pre ++ Saved q Written :: post ->
     disk_after disk (pre ++ [Saved q Written]) = Stored q) /\
  StronglySorted Z.le (saved_indices r.1.1) /\
  (resume args = true ->
   Forall (fun x => last_index p0 <= x) (saved_indices r.1.1)).
Proof.
  cbv zeta. unfold process_batch.
  set (p0 := load_batch_progress disk).
  set (total := Z.of_nat (length companies)).
  set (st0 := {| st_progress := p0; st_disk := disk; st_saves := 0; st_skipped := 0 |}).
  pose proof (batch_loop_saved_indices env companies total
                (py_range (start_index args p0) total) st0
                (py_range_sorted _ _)) as [Hsorted Hin].
  split; [|split; [|split; [|split]]].
  - intros pre i url post result Hsplit Hrun.
    destruct (batch_loop_saves_each_attempt env companies total _ st0
                pre post i url result Hsplit Hrun) as [(w & rest & ->) Hentries].
    exists w, rest. split; [done|]. split; [apply last_index_record_result|].
    rewrite entries_record_result. simpl in Hentries. by rewrite Hentries.
  - apply (batch_loop_disk env companies total _ st0).
  - intros pre q post _. apply disk_after_written.
  - exact Hsorted.
  - intros Hresume. unfold start_index in *. rewrite Hresume in *.
    destruct Hin as [Hin| ->].
    + eapply Forall_impl; [exact Hin|].
      intros x Hx%elem_of_py_range. simpl in *. lia.
    + repeat constructor. simpl. lia.
Qed.

(** C10 (amended): a run without resume mode and without [--reset] on a
    checkpoint that loads appends to its lists: at the end the lists in
    memory are the stored ones followed by the results of this run, and
    every checkpoint the run saves keeps the stored entries in place.  After
    each write that succeeds the file holds exactly the checkpoint saved,
    whose lists are the stored ones followed by the results so far; when
    every write succeeds the file ends up holding the checkpoint in memory,
    and a following run without resume mode appends its results to those of
    both.  During the run the file holds a document that keeps the stored
    entries, unless a write failed once the file was truncated: then the
    file is unreadable and the next run loads empty lists.  [--reset]
    removes the file. *)
Theorem C10_non_resume_run_accumulates (env : BatchEnv) (companies : list string)
    (p0 : Progress) :
  let r := process_batch env companies plain_args (Stored p0) in
  load_batch_progress (Stored p0) = p0 /\
  processed (st_progress r.1.2) = processed p0 ++ successes (outcomes env r.1.1) /\
  failed (st_progress r.1.2) = failed p0 ++ failures (outcomes env r.1.1) /\
  Forall (extends p0) (checkpoints r.1.1) /\
  st_disk r.1.2 = disk_after (Stored p0) r.1.1 /\
  (forall pre q post,
     r.1.1 = pre ++ Saved q Written :: post ->
     disk_after (Stored p0) (pre ++ [Saved q Written]) = Stored q /\
     processed q = processed p0 ++ successes (outcomes env pre) /\
     failed q = failed p0 ++ failures (outcomes env pre)) /\
  ((forall n, checkpoint_write env n = Written) ->
   st_disk r.1.2 = Stored (st_progress r.1.2) /\
   forall (env' : BatchEnv) (companies' : list string),
     let r' := process_batch env' companies' plain_args (st_disk r.1.2) in
     processed (st_progress r'.1.2)
     = processed p0 ++ successes (outcomes env r.1.1)
                    ++ successes (outcomes env' r'.1.1) /\
     failed (st_progress r'.1.2)
     = failed p0 ++ failures (outcomes env r.1.1)
                 ++ failures (outcomes env' r'.1.1)) /\
  (forall pre, pre `prefix_of` r.1.1 ->
     match disk_after (Stored p0) pre with
     | Stored p => extends p0 p
     | Unreadable =>
         (exists q, Saved q FailedTruncated ∈ pre) /\
         load_batch_progress Unreadable = empty_progress
     | NoFile => False
     end) /\
  (forall menv : MainEnv,
     reset_step menv plain_args (Stored p0) = inl (Stored p0) /\
     (unlink_checkpoint menv = None ->
      reset_step menv {| resume := false; reset := true |} (Stored p0) = inl NoFile /\
      load_batch_progress NoFile = empty_progress)).
Proof.
  cbv zeta. unfold process_batch. cbn [start_index resume plain_args load_batch_progress].
  set (total := Z.of_nat (length companies)).
  set (st0 := {| st_progress := p0; st_disk := Stored p0; st_saves := 0; st_skipped := 0 |}).
  destruct (batch_loop_appends env companies total (py_range 0 total) st0)
    as (Hproc & Hfail & Hsaved).
  split; [done|]. split; [exact Hproc|]. split; [exact Hfail|].
  split; [exact Hsaved|].
  split; [apply (batch_loop_disk env companies total _ st0)|].
  split; [|split; [|split]].
  - intros pre q post Hsplit. split; [apply disk_after_written|].
    apply (batch_loop_saved_accumulates env companies total _ st0 pre post q Written Hsplit).
  - intros Hwritten.
    pose proof (batch_loop_disk_stored env companies total (py_range 0 total) st0
                  Hwritten eq_refl) as Hdisk.
    split; [exact Hdisk|]. intros env' companies'.
    rewrite Hdisk. cbn [load_batch_progress].
    set (total' := Z.of_nat (length companies')).
    destruct (batch_loop_appends env' companies' total' (py_range 0 total')
                {| st_progress := st_progress (batch_loop env companies total
                                                 (py_range 0 total) st0).1.2;
                   st_disk := Stored (st_progress (batch_loop env companies total
                                                     (py_range 0 total) st0).1.2);
                   st_saves := 0; st_skipped := 0 |})
      as (Hproc' & Hfail' & _).
    cbn [st_progress] in Hproc', Hfail'.
    rewrite Hproc', Hfail', Hproc, Hfail, <- !app_assoc. by split.
  - intros pre [post Hpre].
    assert (Hkeeps :
      match disk_after (Stored p0) pre with
      | Stored p => extends p0 p
      | Unreadable => exists q, Saved q FailedTruncated ∈ pre
      | NoFile => False
      end).
    { apply disk_after_keeps.
      - rewrite Hpre in Hsaved. unfold checkpoints in *. rewrite omap_app in Hsaved.
        by apply Forall_app in Hsaved as [? _].
      - exists p0. split; [done|apply extends_refl]. }
    by destruct (disk_after (Stored p0) pre).
  - intros menv. split; [done|]. intros Hunlink.
    unfold reset_step. simpl. by rewrite Hunlink.
Qed.

(** C7 (amended): when the CSV reader returns no company, no target is
    attempted, and once the start-up steps have passed [main_async] logs
    the error and returns normally, so that the exit status is 0. *)
Theorem C7_empty_input_exits_with_status_zero (env : MainEnv) (args : Args)
    (disk : CheckpointFile) :
  read_companies_from_csv env = inl [] ->
  (main env args disk).1.1 = [] /\
  (mkdir_base_dir env = None ->
   forall disk1, reset_step env args disk = inl disk1 ->
     main env args disk = ([], disk1, 0)).
Proof.
  intros Hcsv. unfold main, main_async. rewrite Hcsv. split.
  - destruct (mkdir_base_dir env) as [[|e]|]; [done|done|].
    by destruct (reset_step env args disk) as [disk1|[|e]].
  - intros -> disk1 ->. done.
Qed.

(** An input that cannot be read is what ends the run with status 1. *)
Lemma main_unreadable_input_exits_with_status_one (env : MainEnv) (args : Args)
    (disk disk1 : CheckpointFile) (e : string) :
  mkdir_base_dir env = None ->
  reset_step env args disk = inl disk1 ->
  read_companies_from_csv env = inr (Error e) ->
  main env args disk = ([], disk1, 1).
Proof. intros Hmkdir Hreset Hcsv. unfold main, main_async. by rewrite Hmkdir, Hreset, Hcsv. Qed.

End BatchClaims.

Lemma C1_resume_starts_after_last_index_witness :
  visited (@process_batch ascii_runtime quiet_batch two_companies resume_args
             (Stored {| processed := []; failed := []; last_index := 0 |})).1.1
  = [1].
Proof.
  apply (@C1_resume_starts_after_last_index ascii_runtime quiet_batch two_companies
           false {| processed := []; failed := []; last_index := 0 |} NoFile).
  reflexivity.
Defined.

(** C2 (as stated, refuted): a run without resume mode finds the checkpoint
    of an earlier run, with [last_index = 7]; after its first target
    [last_index] is 0, and as the first write of the file fails, the second
    target is attempted while the file still holds the old checkpoint. *)
Lemma C2_last_index_drops_and_failed_write_is_swallowed :
  let r := @process_batch ascii_runtime first_write_fails two_companies plain_args
             (Stored stale_checkpoint) in
  last_index_history (Stored stale_checkpoint) r.1.1 = [7; 0; 1] /\
  ~ StronglySorted Z.le (last_index_history (Stored stale_checkpoint) r.1.1) /\
  r.1.1 !! 0%nat
  = Some (Attempted 0 "https://www.ambitionbox.com/reviews/infosys-reviews") /\
  (exists p, r.1.1 !! 1%nat = Some (Saved p FailedUntouched) /\ last_index p = 0) /\
  r.1.1 !! 3%nat
  = Some (Attempted 1 "https://www.ambitionbox.com/reviews/wipro-reviews") /\
  disk_after (Stored stale_checkpoint) (take 3 r.1.1) = Stored stale_checkpoint.
Proof.
  cbv zeta. split; [reflexivity|]. split.
  - intros Hsorted. apply StronglySorted_inv in Hsorted as [_ Hle].
    apply Forall_cons in Hle as [Hle _]. change (7 <= 0) in Hle. lia.
  - split; [reflexivity|]. split; [by eexists|]. split; reflexivity.
Qed.

Lemma C2_checkpoint_saved_after_each_target_witness :
  Forall (fun x => 0 <= x)
    (saved_indices (@process_batch ascii_runtime quiet_batch two_companies resume_args
                      (Stored {| processed := []; failed := []; last_index := 0 |})).1.1).
Proof.
  apply (@C2_checkpoint_saved_after_each_target ascii_runtime quiet_batch two_companies
           resume_args (Stored {| processed := []; failed := []; last_index := 0 |})).
  reflexivity.
Defined.

Lemma C10_non_resume_run_accumulates_witness :
  let r := @process_batch ascii_runtime quiet_batch two_companies plain_args
             (Stored stale_checkpoint) in
  st_disk r.1.2 = Stored (st_progress r.1.2) /\
  r_index <$> processed (st_progress r.1.2) = [7; 0; 1].
Proof.
  cbv zeta. split; [|reflexivity].
  apply (@C10_non_resume_run_accumulates ascii_runtime quiet_batch two_companies
           stale_checkpoint).
  intros n. reflexivity.
Defined.

(** C10 (as stated, refuted): the disk is full during a run without resume
    mode and without [--reset] on the checkpoint of an earlier run; every
    write fails once the file was truncated, the failures are swallowed and
    the file is left unreadable.  The next run, again without [--reset],
    loads empty lists, and the file it writes has lost the stored entry. *)
Lemma C10_truncated_write_loses_stored_entries :
  let r1 := @process_batch ascii_runtime disk_full_batch two_companies plain_args
              (Stored stale_checkpoint) in
  let r2 := @process_batch ascii_runtime quiet_batch two_companies plain_args
              (st_disk r1.1.2) in
  r1.2 = None /\
  st_disk r1.1.2 = Unreadable /\
  r2.2 = None /\
  st_disk r2.1.2 = Stored (st_progress r2.1.2) /\
  r_index <$> processed (st_progress r2.1.2) = [0; 1] /\
  ~ extends stale_checkpoint (st_progress r2.1.2) /\
  ~ (forall (env : BatchEnv) (companies : list string) (p0 : Progress),
       exists p,
         st_disk (@process_batch ascii_runtime env companies plain_args (Stored p0)).1.2
         = Stored p /\ extends p0 p).
Proof.
  cbv zeta. do 5 (split; [reflexivity|]). split.
  - intros [[rest Hprefix] _]. vm_compute in Hprefix. discriminate Hprefix.
  - intros Hclaim.
    destruct (Hclaim disk_full_batch two_companies stale_checkpoint) as (p & Hdisk & _).
    discriminate Hdisk.
Qed.

(** C7 (as stated, refuted): the CSV file lists no company and the process
    ends with status 0. *)
Lemma C7_empty_input_gives_status_zero :
  read_companies_from_csv empty_csv = inl [] /\
  exit_status (@main ascii_runtime empty_csv plain_args NoFile) = 0 /\
  ~ (forall env args disk,
       read_companies_from_csv env = inl [] ->
       exit_status (@main ascii_runtime env args disk) <> 0).
Proof.
  split; [reflexivity|]. split; [reflexivity|].
  intros Hclaim. by apply (Hclaim empty_csv plain_args NoFile).
Qed.

Lemma C7_empty_input_exits_with_status_zero_witness :
  @main ascii_runtime empty_csv plain_args NoFile = ([], NoFile, 0).
Proof.
  apply (@C7_empty_input_exits_with_status_zero ascii_runtime empty_csv plain_args NoFile);
    reflexivity.
Defined.

(** * Further properties of the code *)

(** ** Utilities *)

(** [ensure_scheme] leaves a URL that has a scheme as it is, always returns a
    string that starts with a scheme, and applying it twice changes nothing
    more. *)
Theorem ensure_scheme_adds_scheme_once (s : string) :
  (startswith (ensure_scheme s) "http://" = true \/
   startswith (ensure_scheme s) "https://" = true) /\
  (startswith s "http://" = true \/ startswith s "https://" = true ->
   ensure_scheme s = s) /\
  ensure_scheme (ensure_scheme s) = ensure_scheme s.
Proof.
  assert (Hadded : startswith ("https://" +:+ s) "https://" = true).
  { unfold startswith. simpl. change ("" +:+ s)%string with s. by destruct s. }
  unfold ensure_scheme.
  destruct (startswith s "http://") eqn:Hhttp; cbn [negb andb].
  - rewrite Hhttp. cbn [negb andb]. split; [by left|]. by split.
  - destruct (startswith s "https://") eqn:Hhttps; cbn [negb andb].
    + rewrite Hhttp, Hhttps. cbn [negb andb]. split; [by right|]. by split.
    + rewrite Hadded. cbn [negb]. rewrite andb_false_r.
      split; [by right|]. split; [|done]. by intros [|].
Qed.

Lemma ensure_scheme_adds_scheme_once_witness :
  ensure_scheme "http://ambitionbox.com" = "http://ambitionbox.com"%string.
Proof.
  apply (proj1 (proj2 (ensure_scheme_adds_scheme_once "http://ambitionbox.com"))).
  left. reflexivity.
Defined.

Lemma endswith_app (s suffix : string) : endswith (s +:+ suffix) suffix = true.
Proof.
  induction s as [|a s IH].
  - simpl. destruct suffix; simpl; by rewrite ?Ascii.eqb_refl, ?String.eqb_refl.
  - change (String a s +:+ suffix)%string with (String a (s +:+ suffix)).
    cbn [endswith]. by destruct (String.eqb (String a (s +:+ suffix)) suffix).
Qed.

(** When the final segment of the URL is [stem + "-reviews"] and
    ["-reviews"] does not occur anywhere else in it, the URL name is
    [stem]. *)
Theorem extract_urlname_strips_single_suffix (url stem : string) :
  final_segment url = (stem +:+ "-reviews")%string ->
  no_inner_match stem = true ->
  extract_urlname_from_url url = Some stem.
Proof.
  intros Hsegment Hsingle.
  rewrite extract_urlname_from_url_final_segment, Hsegment, endswith_app.
  by rewrite replace_only_suffix.
Qed.

Lemma extract_urlname_strips_single_suffix_witness :
  extract_urlname_from_url "https://www.ambitionbox.com/reviews/tata-consultancy-services-reviews/"
  = Some "tata-consultancy-services"%string.
Proof.
  apply (extract_urlname_strips_single_suffix
           "https://www.ambitionbox.com/reviews/tata-consultancy-services-reviews/"
           "tata-consultancy-services"); reflexivity.
Defined.

(** ** File names *)

Section SanitizeFacts.
Context {char : Type}.
Variables (is_word is_space is_hyphen : char -> bool) (underscore : char).
Hypothesis word_not_space : forall c, is_word c = true -> is_space c = false.
Hypothesis word_not_hyphen : forall c, is_word c = true -> is_hyphen c = false.
Hypothesis underscore_is_word : is_word underscore = true.

Lemma lstrip_chars_Forall (P : char -> Prop) (s : list char) :
  Forall P s -> Forall P (lstrip_chars is_space s).
Proof.
  induction 1 as [|c s Hc Hs IH]; simpl; [constructor|].
  destruct (is_space c); [done|by constructor].
Qed.

Lemma rstrip_chars_Forall (P : char -> Prop) (s : list char) :
  Forall P s -> Forall P (rstrip_chars is_space s).
Proof.
  induction 1 as [|c s Hc Hs IH]; simpl; [constructor|].
  destruct (rstrip_chars is_space s).
  - destruct (is_space c); by repeat constructor.
  - by constructor.
Qed.

Lemma collapse_runs_words (in_run : bool) (s : list char) :
  Forall (fun c => is_word c || is_space c || is_hyphen c = true) s ->
  Forall (fun c => is_word c = true)
    (collapse_runs is_space is_hyphen underscore in_run s).
Proof.
  intros Hs. revert in_run. induction Hs as [|c s Hc Hs IH]; intros in_run; simpl;
    [constructor|].
  destruct (is_hyphen c) eqn:Hh; simpl.
  - destruct in_run; [apply IH|]. constructor; [done|apply IH].
  - destruct (is_space c) eqn:Hsp.
    + destruct in_run; [apply IH|]. constructor; [done|apply IH].
    + constructor; [|apply IH]. by rewrite !orb_false_r in Hc.
Qed.

Lemma sanitize_fixes_words (s : list char) :
  Forall (fun c => is_word c = true) s ->
  rstrip_chars is_space (lstrip_chars is_space (drop_unsafe is_word is_space is_hyphen s)) = s /\
  collapse_runs is_space is_hyphen underscore false s = s.
Proof.
  intros Hs. split.
  - assert (drop_unsafe is_word is_space is_hyphen s = s) as ->.
    { unfold drop_unsafe. induction Hs as [|c s Hc Hs IH]; simpl; [done|].
      by rewrite Hc, IH. }
    assert (lstrip_chars is_space s = s) as ->.
    { destruct Hs as [|c s Hc Hs]; simpl; [done|]. by rewrite (word_not_space c Hc). }
    induction Hs as [|c s Hc Hs IH]; simpl; [done|].
    rewrite IH. destruct s; [|done]. by rewrite (word_not_space c Hc).
  - generalize false. induction Hs as [|c s Hc Hs IH]; intros in_run; simpl; [done|].
    rewrite (word_not_hyphen c Hc), (word_not_space c Hc). simpl. by rewrite IH.
Qed.

(** The sanitized name has at most 100 characters, all of them word
    characters, so that it holds no hyphen, no white space and nothing a file
    name cannot hold; sanitizing it again changes nothing. *)
Theorem sanitize_filename_safe_and_idempotent (name : list char) :
  let safe := sanitize_filename is_word is_space is_hyphen underscore name in
  (length safe <= 100)%nat /\
  Forall (fun c => is_word c = true /\ is_space c = false /\ is_hyphen c = false) safe /\
  sanitize_filename is_word is_space is_hyphen underscore safe = safe.
Proof.
  cbv zeta.
  set (safe := sanitize_filename is_word is_space is_hyphen underscore name).
  assert (Hwords : Forall (fun c => is_word c = true) safe).
  { unfold safe, sanitize_filename. apply Forall_take, collapse_runs_words.
    apply rstrip_chars_Forall, lstrip_chars_Forall.
    unfold drop_unsafe. apply Forall_forall. intros c Hc%list_elem_of_In.
    by apply filter_In in Hc as [_ Hc]. }
  assert (Hlen : (length safe <= 100)%nat).
  { unfold safe, sanitize_filename. rewrite length_take. lia. }
  split; [exact Hlen|]. split.
  - eapply Forall_impl; [exact Hwords|]. intros c Hc. cbv beta in *.
    by rewrite Hc, (word_not_space c Hc), (word_not_hyphen c Hc).
  - destruct (sanitize_fixes_words _ Hwords) as [Hstrip Hcollapse].
    unfold sanitize_filename at 1. cbv zeta. rewrite Hstrip, Hcollapse.
    by apply take_ge.
Qed.

End SanitizeFacts.

Lemma sanitize_filename_safe_and_idempotent_witness :
  ascii_sanitize "  Tata Consultancy-Services (TCS)! " = "Tata_Consultancy_Services_TCS"%string /\
  (length (sanitize_filename ascii_is_word is_space (Ascii.eqb "-") "_"%char
             (list_ascii_of_string "  Tata Consultancy-Services (TCS)! ")) <= 100)%nat.
Proof.
  split; [reflexivity|].
  apply (sanitize_filename_safe_and_idempotent ascii_is_word is_space (Ascii.eqb "-")
           "_"%char).
  - intros c. unfold ascii_is_word, is_space.
    destruct c as [[] [] [] [] [] [] [] []]; vm_compute; congruence.
  - intros c. unfold ascii_is_word.
    destruct c as [[] [] [] [] [] [] [] []]; vm_compute; congruence.
  - reflexivity.
Defined.

(** ** Cookie capture *)

Lemma cookie_string_not_empty (c : Cookie) (cookies : list Cookie) :
  cookie_string (c :: cookies) <> ""%string.
Proof.
  unfold cookie_string. cbn [map].
  assert (Hfirst : exists a t, (c_name c +:+ "=" +:+ c_value c)%string = String a t).
  { destruct (c_name c) as [|a t]; by eexists _, _. }
  destruct Hfirst as (a & t & ->).
  by destruct (map _ cookies).
Qed.

(** The caller always gets one of two pairs: a cookie string that is not
    empty together with an empty error, or [None] together with an error text
    that is not empty. *)
Theorem capture_returns_cookies_or_error (browser : Z -> BrowserRun) (url : string)
    (max_attempts : Z) :
  let r := (capture_cookies_visible_browser browser url max_attempts).2 in
  (exists cookie, r = (Some cookie, ""%string) /\ cookie <> ""%string) \/
  (exists msg, r = (None, msg) /\ msg <> ""%string).
Proof.
  cbv zeta. unfold capture_cookies_visible_browser.
  generalize (ensure_scheme url) as u. intros u.
  induction (py_range 0 max_attempts) as [|attempt rest IH]; simpl.
  - right. by eexists.
  - destruct (capture_attempts browser u max_attempts rest) as [events r].
    destruct (browser attempt) as [[|c cookies]|e]; simpl.
    + exact IH.
    + left. eexists. split; [done|]. apply cookie_string_not_empty.
    + destruct (attempt <? max_attempts - 1); simpl; [exact IH|].
      right. by eexists.
Qed.

(** Attempts that yield no cookie, or raise while attempts are left, are
    passed over: the loop goes on with the remaining attempts. *)
Lemma capture_attempts_skip_failures (browser : Z -> BrowserRun) (url : string)
    (max_attempts : Z) (pre rest : list Z) :
  (forall b, b ∈ pre ->
     b < max_attempts - 1 /\
     (browser b = GotCookies [] \/ exists e, browser b = BrowserRaised e)) ->
  (capture_attempts browser url max_attempts (pre ++ rest)).2
  = (capture_attempts browser url max_attempts rest).2 /\
  launches (capture_attempts browser url max_attempts (pre ++ rest)).1
  = pre ++ launches (capture_attempts browser url max_attempts rest).1.
Proof.
  induction pre as [|b pre IH]; intros Hfail; [done|].
  destruct IH as [IHr IHl]; [intros; apply Hfail; by right|].
  destruct (Hfail b ltac:(by left)) as [Hb Hrun].
  cbn [app capture_attempts].
  destruct (capture_attempts browser url max_attempts (pre ++ rest)) as [events r].
  destruct Hrun as [->|[e ->]].
  - simpl in *. by rewrite IHl.
  - destruct (Z.ltb_spec b (max_attempts - 1)); [|lia]. simpl in *. by rewrite IHl.
Qed.

(** The first visit that yields a cookie ends the capture: its cookies are
    returned and the browser is not launched again. *)
Theorem capture_stops_at_first_cookies (browser : Z -> BrowserRun) (url : string)
    (max_attempts a : Z) (c : Cookie) (cookies : list Cookie) :
  0 <= a < max_attempts ->
  browser a = GotCookies (c :: cookies) ->
  (forall b, 0 <= b < a ->
     browser b = GotCookies [] \/ exists e, browser b = BrowserRaised e) ->
  (capture_cookies_visible_browser browser url max_attempts).2
  = (Some (cookie_string (c :: cookies)), ""%string) /\
  launches (capture_cookies_visible_browser browser url max_attempts).1
  = py_range 0 (a + 1).
Proof.
  intros Ha Hcookies Hbefore. unfold capture_cookies_visible_browser. cbv zeta.
  rewrite (py_range_split 0 a max_attempts) by lia.
  rewrite (py_range_cons a max_attempts) by lia.
  destruct (capture_attempts_skip_failures browser (ensure_scheme url) max_attempts
              (py_range 0 a) (a :: py_range (a + 1) max_attempts)) as [-> ->].
  { intros b Hb%elem_of_py_range. split; [lia|]. apply Hbefore. lia. }
  cbn [capture_attempts]. rewrite Hcookies.
  destruct (capture_attempts browser (ensure_scheme url) max_attempts
              (py_range (a + 1) max_attempts)) as [events r].
  split; [done|]. simpl.
  rewrite (py_range_split 0 a (a + 1)) by lia.
  by rewrite (py_range_cons a (a + 1)), (py_range_nil (a + 1)) by lia.
Qed.

Lemma capture_stops_at_first_cookies_witness :
  launches (capture_cookies_visible_browser timeout_then_one
              "https://www.ambitionbox.com/reviews/infosys-reviews" 3).1
  = py_range 0 2.
Proof.
  apply (capture_stops_at_first_cookies timeout_then_one
           "https://www.ambitionbox.com/reviews/infosys-reviews" 3 1
           {| c_name := "sid"; c_value := "abc" |} []).
  - lia.
  - reflexivity.
  - intros b Hb. right. assert (b = 0) as -> by lia. by eexists.
Defined.

(** When every visit raises, the browser is launched [max_attempts] times,
    the waits in between are 1, 2, 4, ... seconds, none follows the last
    attempt, and the error names the last attempt and carries the text of
    its exception. *)
Theorem capture_gives_up_after_last_exception (browser : Z -> BrowserRun)
    (url : string) (max_attempts : Z) (e : Z -> string) :
  1 <= max_attempts ->
  (forall a, browser a = BrowserRaised (e a)) ->
  capture_cookies_visible_browser browser url max_attempts
  = ((capture_cookies_visible_browser browser url max_attempts).1,
     (None,
      "Attempt " +:+ str_of_int max_attempts +:+ "/" +:+ str_of_int max_attempts
        +:+ " failed: " +:+ e (max_attempts - 1))%string) /\
  launches (capture_cookies_visible_browser browser url max_attempts).1
  = py_range 0 max_attempts /\
  waits (capture_cookies_visible_browser browser url max_attempts).1
  = map (Z.pow 2) (py_range 0 (max_attempts - 1)).
Proof.
  intros Hmax Hraise.
  split; [|split].
  - rewrite (surjective_pairing (capture_cookies_visible_browser browser url max_attempts))
      at 1.
    f_equal. unfold capture_cookies_visible_browser. cbv zeta.
    rewrite (py_range_split 0 (max_attempts - 1) max_attempts) by lia.
    rewrite (py_range_cons (max_attempts - 1) max_attempts) by lia.
    destruct (capture_attempts_skip_failures browser (ensure_scheme url) max_attempts
                (py_range 0 (max_attempts - 1))
                (max_attempts - 1 :: py_range (max_attempts - 1 + 1) max_attempts))
      as [-> _].
    { intros b Hb%elem_of_py_range. split; [lia|]. right. by eexists. }
    cbn [capture_attempts]. rewrite Hraise.
    destruct (capture_attempts browser (ensure_scheme url) max_attempts
                (py_range (max_attempts - 1 + 1) max_attempts)) as [events r].
    rewrite Z.ltb_irrefl. simpl. by replace (max_attempts - 1 + 1) with max_attempts by lia.
  - unfold capture_cookies_visible_browser. cbv zeta.
    rewrite (py_range_split 0 (max_attempts - 1) max_attempts) at 1 by lia.
    rewrite (py_range_cons (max_attempts - 1) max_attempts) at 1 by lia.
    destruct (capture_attempts_skip_failures browser (ensure_scheme url) max_attempts
                (py_range 0 (max_attempts - 1))
                (max_attempts - 1 :: py_range (max_attempts - 1 + 1) max_attempts))
      as [_ ->].
    { intros b Hb%elem_of_py_range. split; [lia|]. right. by eexists. }
    cbn [capture_attempts]. rewrite Hraise.
    destruct (capture_attempts browser (ensure_scheme url) max_attempts
                (py_range (max_attempts - 1 + 1) max_attempts)) as [events r].
    rewrite Z.ltb_irrefl. simpl.
    rewrite (py_range_split 0 (max_attempts - 1) max_attempts) by lia.
    rewrite (py_range_cons (max_attempts - 1) max_attempts) by lia.
    by rewrite (py_range_nil (max_attempts - 1 + 1)) by lia.
  - apply capture_waits_when_raising. intros a. by eexists.
Qed.

Lemma capture_gives_up_after_last_exception_witness :
  waits (capture_cookies_visible_browser (fun _ => BrowserRaised "net::ERR_TIMED_OUT")
           "www.ambitionbox.com/reviews/infosys-reviews" 3).1
  = [1; 2].
Proof.
  apply (capture_gives_up_after_last_exception (fun _ => BrowserRaised "net::ERR_TIMED_OUT")
           "www.ambitionbox.com/reviews/infosys-reviews" 3
           (fun _ => "net::ERR_TIMED_OUT"%string)).
  - lia.
  - intros a. reflexivity.
Defined.

(** ** The retry loop of a page, continued *)

Section FetcherFacts.
Variables (self : CompanyFetcher) (net : Net).

(** Transient answers with attempts left are rounds of request and sleep. *)
Lemma fetch_attempts_transient (page : Z) (todo rest : list Z) :
  (forall a, a ∈ todo ->
     a < RETRIES - 1 /\ transient (page_get net (company_id self) page a) = true) ->
  fetch_attempts self net page (todo ++ rest)
  = (retry_rounds net page todo ++ (fetch_attempts self net page rest).1,
     (fetch_attempts self net page rest).2).
Proof.
  induction todo as [|a todo IH]; intros Htransient.
  - simpl. by destruct (fetch_attempts self net page rest).
  - cbn [app fetch_attempts]. rewrite IH by (intros; apply Htransient; by right).
    destruct (Htransient a ltac:(by left)) as [Ha Hreply].
    destruct (Z.ltb_spec a (RETRIES - 1)); [|lia].
    destruct (page_get net (company_id self) page a) as [status body|e]; [|done].
    cbn [transient] in Hreply.
    destruct (Z.eqb_spec status 200) as [->|_].
    + by destruct body.
    + by rewrite Hreply.
Qed.

(** A 200 with a JSON body that follows [k] transient answers ends the fetch
    with that body and no error, after [k] rounds of request and sleep and
    one more request. *)
Theorem fetch_succeeds_after_transient_failures (page k : Z) (v : JSON) :
  0 <= k < RETRIES ->
  (forall a, 0 <= a < k -> transient (page_get net (company_id self) page a) = true) ->
  page_get net (company_id self) page k = Reply 200 (Json v) ->
  fetch_page_json self net page
  = (retry_rounds net page (py_range 0 k) ++ [Request page k], (v, None)).
Proof.
  intros Hk Htransient Hreply. unfold fetch_page_json.
  rewrite (py_range_split 0 k RETRIES), (py_range_cons k RETRIES) by lia.
  rewrite fetch_attempts_transient.
  - cbn [fetch_attempts]. rewrite Hreply. simpl.
    by destruct (fetch_attempts self net page (py_range (k + 1) RETRIES)).
  - intros a Ha%elem_of_py_range. split; [lia|]. apply Htransient. lia.
Qed.

(** A status other than 200, 429 and 503 ends the fetch at once with the
    error [status_<code>]: the page is not requested again. *)
Theorem fetch_gives_up_on_other_status (page k status : Z) (body : Body) :
  0 <= k < RETRIES ->
  (forall a, 0 <= a < k -> transient (page_get net (company_id self) page a) = true) ->
  page_get net (company_id self) page k = Reply status body ->
  status <> 200 -> status <> 429 -> status <> 503 ->
  fetch_page_json self net page
  = (retry_rounds net page (py_range 0 k) ++ [Request page k],
     (JNull, Some ("status_" +:+ str_of_int status)%string)).
Proof.
  intros Hk Htransient Hreply H200 H429 H503. unfold fetch_page_json.
  rewrite (py_range_split 0 k RETRIES), (py_range_cons k RETRIES) by lia.
  rewrite fetch_attempts_transient.
  - cbn [fetch_attempts]. rewrite Hreply.
    destruct (fetch_attempts self net page (py_range (k + 1) RETRIES)).
    destruct (Z.eqb_spec status 200); [done|].
    destruct (Z.eqb_spec status 429); [done|].
    by destruct (Z.eqb_spec status 503).
  - intros a Ha%elem_of_py_range. split; [lia|]. apply Htransient. lia.
Qed.

(** When every request raises, the page is requested five times with four
    sleeps in between (none after the last request) and the error is the
    text of the last exception. *)
Theorem fetch_gives_up_after_last_exception (page : Z) (e : Z -> string) :
  (forall a, 0 <= a < RETRIES -> page_get net (company_id self) page a = NoReply (e a)) ->
  fetch_page_json self net page
  = (retry_rounds net page (py_range 0 (RETRIES - 1)) ++ [Request page (RETRIES - 1)],
     (JNull, Some (e (RETRIES - 1)))).
Proof.
  intros Hraise. unfold fetch_page_json.
  rewrite (py_range_split 0 (RETRIES - 1) RETRIES) at 1 by (unfold RETRIES; lia).
  rewrite fetch_attempts_transient.
  - change (py_range (RETRIES - 1) RETRIES) with [RETRIES - 1].
    cbn [fetch_attempts]. rewrite Hraise by (unfold RETRIES; lia).
    by rewrite Z.ltb_irrefl.
  - intros a Ha%elem_of_py_range. split; [lia|]. rewrite Hraise by lia. done.
Qed.

Lemma fetch_attempts_shape (page : Z) (todo : list Z) :
  let r := fetch_attempts self net page todo in
  requests r.1 `prefix_of` todo /\
  (length (sleeps r.1) <= length (requests r.1))%nat /\
  (forall e, r.2.2 = Some e -> r.2.1 = JNull) /\
  (r.2.2 = None ->
   exists a, a ∈ todo /\ page_get net (company_id self) page a = Reply 200 (Json r.2.1)).
Proof.
  cbv zeta. induction todo as [|a todo IH]; [by repeat split|].
  cbn [fetch_attempts].
  destruct (fetch_attempts self net page todo) as [events [data err]].
  cbn [fst snd] in IH. destruct IH as (IHreq & IHlen & IHerr & IHok).
  assert (Hretry : let r := (Request page a :: Sleep (backoff net page a) :: events,
                             (data, err)) in
            requests r.1 `prefix_of` a :: todo /\
            (length (sleeps r.1) <= length (requests r.1))%nat /\
            (forall e, r.2.2 = Some e -> r.2.1 = JNull) /\
            (r.2.2 = None ->
             exists a', a' ∈ a :: todo /\
               page_get net (company_id self) page a' = Reply 200 (Json r.2.1))).
  { cbv zeta. unfold requests, sleeps in *. cbn in *.
    split; [by apply prefix_cons|]. split; [lia|]. split; [done|].
    intros Hnone. destruct (IHok Hnone) as (a' & Ha' & Hreply).
    exists a'. split; [by right|done]. }
  clear IHreq IHlen IHerr IHok.
  destruct (page_get net (company_id self) page a) as [status [v|e]|e] eqn:Hreply.
  - destruct (Z.eqb_spec status 200) as [->|_].
    + cbn. split; [apply prefix_cons, prefix_nil|]. split; [lia|]. split; [done|].
      intros _. exists a. split; [by left|done].
    + destruct ((status =? 429) || (status =? 503)); [exact Hretry|].
      cbn. split; [apply prefix_cons, prefix_nil|]. split; [lia|]. by split.
  - destruct (Z.eqb_spec status 200) as [->|_].
    + destruct (a <? RETRIES - 1); [exact Hretry|].
      cbn. split; [apply prefix_cons, prefix_nil|]. split; [lia|]. by split.
    + destruct ((status =? 429) || (status =? 503)); [exact Hretry|].
      cbn. split; [apply prefix_cons, prefix_nil|]. split; [lia|]. by split.
  - destruct (a <? RETRIES - 1); [exact Hretry|].
    cbn. split; [apply prefix_cons, prefix_nil|]. split; [lia|]. by split.
Qed.

(** Whatever the site answers, a page is requested at most five times, in
    the order of the attempts, and never slept for more often than it was
    requested; an error always comes with [None] as data, and when there is
    no error the data is the JSON body of a 200 answer to one of the
    attempts. *)
Theorem fetch_page_json_is_bounded (page : Z) :
  let r := fetch_page_json self net page in
  requests r.1 `prefix_of` [0; 1; 2; 3; 4] /\
  (length (sleeps r.1) <= length (requests r.1) <= 5)%nat /\
  (forall e, r.2.2 = Some e -> r.2.1 = JNull) /\
  (r.2.2 = None ->
   exists a, 0 <= a < RETRIES /\
     page_get net (company_id self) page a = Reply 200 (Json r.2.1)).
Proof.
  cbv zeta. unfold fetch_page_json.
  destruct (fetch_attempts_shape page (py_range 0 RETRIES)) as (Hreq & Hlen & Herr & Hok).
  split; [exact Hreq|]. split.
  - split; [exact Hlen|]. by apply prefix_length in Hreq.
  - split; [exact Herr|]. intros Hnone.
    destruct (Hok Hnone) as (a & Ha%elem_of_py_range & Hreply). by exists a.
Qed.

End FetcherFacts.

Lemma fetch_succeeds_after_transient_failures_witness :
  fetch_page_json sample_fetcher recovers_on_third_try 1
  = ([Request 1 0; Sleep (backoff recovers_on_third_try 1 0);
      Request 1 1; Sleep (backoff recovers_on_third_try 1 1);
      Request 1 2],
     (JDict [("data"%string, JDict [("reviews"%string, JList [JDict []])])], None)).
Proof.
  apply (fetch_succeeds_after_transient_failures sample_fetcher recovers_on_third_try 1 2).
  - unfold RETRIES. lia.
  - intros a Ha. assert (a = 0 \/ a = 1) as [-> | ->] by lia; reflexivity.
  - reflexivity.
Defined.

Lemma fetch_gives_up_on_other_status_witness :
  fetch_page_json sample_fetcher
    {| seo_get := fun _ _ => NoReply "unused";
       data_get := fun _ _ _ _ => NoReply "unused";
       page_get := fun _ _ _ => Reply 403 (NotJson "Forbidden");
       random_random := fun _ _ => 0%Q;
       append_page := fun _ => true |} 1
  = ([Request 1 0], (JNull, Some "status_403"%string)).
Proof.
  apply (fetch_gives_up_on_other_status sample_fetcher _ 1 0 403 (NotJson "Forbidden")).
  - unfold RETRIES. lia.
  - intros a Ha. lia.
  - reflexivity.
  - lia.
  - lia.
  - lia.
Defined.

Lemma fetch_gives_up_after_last_exception_witness :
  (fetch_page_json sample_fetcher
     {| seo_get := fun _ _ => NoReply "unused";
        data_get := fun _ _ _ _ => NoReply "unused";
        page_get := fun _ _ _ => NoReply "Connection reset";
        random_random := fun _ _ => 0%Q;
        append_page := fun _ => true |} 1).2
  = (JNull, Some "Connection reset"%string).
Proof.
  rewrite (fetch_gives_up_after_last_exception sample_fetcher _ 1
             (fun _ => "Connection reset"%string)).
  - reflexivity.
  - intros a Ha. reflexivity.
Defined.

Lemma fetch_page_json_is_bounded_witness :
  (fetch_page_json sample_fetcher always_429 1).2.1 = JNull.
Proof.
  apply (fetch_page_json_is_bounded sample_fetcher always_429 1)
    with (e := "max_retries_exceeded"%string).
  reflexivity.
Defined.

(** ** Pages and windows, continued *)

Section PageFacts.
Variables (self : CompanyFetcher) (net : Net).

(** A page counts as fetched only when the fetch returned a body and no
    error, the reviews in it are a list and the records could be appended to
    the output file; the count is the length of that list.  In every other
    case the page returns [(False, 0)]. *)
Theorem process_page_counts_appended_lists (page : Z) :
  process_page self net page = (false, 0) \/
  exists reviews,
    process_page self net page = (true, Z.of_nat (length reviews)) /\
    (fetch_page_json self net page).2.2 = None /\
    reviews_of (fetch_page_json self net page).2.1 = Some (JList reviews) /\
    append_page net page = true.
Proof.
  unfold process_page.
  pose proof (fetch_attempts_shape self net page (py_range 0 RETRIES)) as (_ & _ & Herr & _).
  fold (fetch_page_json self net page) in Herr.
  destruct (fetch_page_json self net page).2 as [data err]. cbn [fst snd] in *.
  destruct (is_none data) eqn:Hnone; [by left|].
  destruct (reviews_of data) as [[| | | | |reviews|]|]; try by left.
  destruct (append_page net page); [|by left].
  right. exists reviews. split; [done|]. split; [|done].
  destruct err as [e|]; [|done]. rewrite (Herr e eq_refl) in Hnone. done.
Qed.

(** A body that is a JSON object without a usable ["data"] entry is a
    fetched page with no record; a body that is not an object, or whose
    reviews are not a list, is a failed page. *)
Theorem process_page_on_unexpected_bodies (page : Z) :
  (forall items,
     (fetch_page_json self net page).2.1 = JDict items ->
     (forall d, assoc "data" items = Some d -> truthy d = false) ->
     append_page net page = true ->
     process_page self net page = (true, 0)) /\
  (match (fetch_page_json self net page).2.1 with JDict _ => False | _ => True end ->
   process_page self net page = (false, 0)) /\
  (forall items ditems r,
     (fetch_page_json self net page).2.1 = JDict items ->
     assoc "data" items = Some (JDict ditems) ->
     ditems <> [] ->
     assoc "reviews" ditems = Some r ->
     truthy r = true ->
     match r with JList _ => False | _ => True end ->
     process_page self net page = (false, 0)).
Proof.
  unfold process_page.
  destruct (fetch_page_json self net page).2 as [data err]. cbn [fst snd].
  split; [|split].
  - intros items -> Hdata ->. cbn [is_none reviews_of py_get mbind option_bind].
    destruct (assoc "data" items) as [d|]; cbn [from_option id].
    + unfold py_or at 2. by rewrite (Hdata d eq_refl).
    + done.
  - destruct data; try done.
  - intros items ditems r -> Hdata Hne Hreviews Htruthy Hlist.
    cbn [is_none reviews_of py_get mbind option_bind]. rewrite Hdata.
    cbn [from_option id]. unfold py_or at 2.
    destruct ditems as [|kv ditems]; [done|]. cbn [truthy].
    cbn [py_get mbind option_bind]. rewrite Hreviews. cbn [from_option id].
    unfold py_or. rewrite Htruthy. by destruct r.
Qed.

(** Without pages there is no window and nothing is counted. *)
Theorem run_without_pages (total_pages : Z) :
  total_pages <= 0 -> run self net total_pages = ([], (0, 0)).
Proof.
  intros Hnone. unfold run, py_range_step.
  by replace (Z.to_nat (total_pages + 1 - 1)) with O by lia.
Qed.

Lemma range_step_from_next (fuel : nat) (start stop step : Z) (i : nat) (s s' : Z) :
  range_step_from fuel start stop step !! i = Some s ->
  range_step_from fuel start stop step !! S i = Some s' ->
  s' = s + step /\ s' < stop.
Proof.
  revert start i. induction fuel as [|fuel IH]; intros start i; simpl; [done|].
  destruct (Z.ltb_spec start stop); [|done].
  destruct i as [|i]; simpl.
  - intros [= <-]. destruct fuel as [|fuel]; simpl; [done|].
    destruct (Z.ltb_spec (start + step) stop); [|done]. intros [= <-]. done.
  - apply IH.
Qed.

Lemma sum_Z_nonneg (l : list Z) : Forall (fun x => 0 <= x) l -> 0 <= sum_Z l.
Proof. induction 1; simpl; lia. Qed.

(** The totals are never negative and never exceed what was asked for: at
    most [total_pages] pages are counted.  Every window that is followed by
    another one holds exactly 50 pages. *)
Theorem run_totals_and_full_windows (total_pages : Z) :
  let r := run self net total_pages in
  0 <= r.2.1 <= Z.max 0 total_pages /\
  0 <= r.2.2 /\
  (forall i w w', r.1 !! i = Some w -> r.1 !! S i = Some w' -> length w = 50%nat).
Proof.
  cbv zeta. unfold run. rewrite (run_fold self net). cbn [fst snd app].
  unfold py_range_step. rewrite (concat_windows total_pages) by lia.
  rewrite (tally_pages self net). cbn [fst snd].
  split; [|split].
  - pose proof (length_filter (fun p => page_ok self net p = true)
                  (py_range 1 (total_pages + 1))) as Hle.
    rewrite length_py_range in Hle. lia.
  - apply Z.add_nonneg_nonneg; [lia|]. apply sum_Z_nonneg, Forall_fmap, Forall_forall.
    intros p _. simpl. unfold page_records.
    destruct (page_ok self net p); [apply process_page_count_nonneg|lia].
  - intros i w w'. rewrite !list_lookup_fmap.
    destruct (range_step_from _ 1 (total_pages + 1) batch_size !! i) as [s|] eqn:Hs;
      [|done].
    destruct (range_step_from _ 1 (total_pages + 1) batch_size !! S i) as [s'|] eqn:Hs';
      [|done].
    destruct (range_step_from_next _ _ _ _ _ _ _ Hs Hs') as [-> Hlt].
    intros [= <-] _. unfold window. rewrite length_py_range.
    unfold batch_size in *. lia.
Qed.

End PageFacts.

Lemma process_page_on_unexpected_bodies_witness :
  process_page sample_fetcher
    {| seo_get := fun _ _ => NoReply "unused";
       data_get := fun _ _ _ _ => NoReply "unused";
       page_get := fun _ _ _ => Reply 200 (Json (JDict [("status"%string, JStr "ok")]));
       random_random := fun _ _ => 0%Q;
       append_page := fun _ => true |} 1
  = (true, 0).
Proof.
  apply (process_page_on_unexpected_bodies sample_fetcher _ 1)
    with (items := [("status"%string, JStr "ok")]).
  - reflexivity.
  - intros d Hd. discriminate Hd.
  - reflexivity.
Defined.

Lemma run_without_pages_witness :
  run sample_fetcher one_then_seven 0 = ([], (0, 0)).
Proof. apply (run_without_pages sample_fetcher one_then_seven 0). lia. Defined.

Lemma run_totals_and_full_windows_witness :
  length (py_range 1 51) = 50%nat.
Proof.
  apply (run_totals_and_full_windows sample_fetcher one_then_seven 120)
    with (i := 0%nat) (w' := py_range 51 101); reflexivity.
Defined.

(** ** Page discovery, continued *)

(** When the metadata answers with a status that is no error and reports
    more than one page, that number is the result, whatever the data
    endpoint would say; when the metadata cannot be read, the data endpoint
    is heard only if its status is 200. *)
Theorem discover_prefers_metadata `{PyRuntime} (net : Net) (company_id : Z)
    (urlname cookie : string) (limit : Z) :
  (forall status m,
     seo_get net urlname cookie = Reply status (Json (pagination_doc m)) ->
     (status < 400 \/ 600 <= status) ->
     1 < m ->
     discover_total_pages net company_id urlname cookie limit = m) /\
  (forall e status body,
     seo_get net urlname cookie = NoReply e ->
     data_get net company_id cookie 1 limit = Reply status body ->
     status <> 200 ->
     discover_total_pages net company_id urlname cookie limit = 1) /\
  (forall status body m,
     seo_get net urlname cookie = Reply status body ->
     400 <= status < 600 ->
     data_get net company_id cookie 1 limit = Reply 200 (Json (pagination_doc m)) ->
     1 < m ->
     discover_total_pages net company_id urlname cookie limit = m).
Proof.
  unfold discover_total_pages, discover_from_seo, discover_from_data, probe_seo_meta.
  split; [|split].
  - intros status m -> Hstatus Hm.
    assert ((400 <=? status) && (status <? 600) = false) as ->.
    { destruct (Z.leb_spec 400 status), (Z.ltb_spec status 600); simpl; lia. }
    cbn -[Z.ltb]. by destruct (Z.ltb_spec 1 m); [|lia].
  - intros e status body -> -> Hstatus. cbn.
    by destruct (Z.eqb_spec status 200).
  - intros status body m -> Hstatus -> Hm.
    assert ((400 <=? status) && (status <? 600) = true) as ->.
    { destruct (Z.leb_spec 400 status), (Z.ltb_spec status 600); simpl; lia. }
    cbn -[Z.ltb]. by destruct (Z.ltb_spec 1 m); [|lia].
Qed.

Lemma discover_prefers_metadata_witness :
  @discover_total_pages ascii_runtime
    {| seo_get := fun _ _ => Reply 200 (Json (pagination_doc 12));
       data_get := fun _ _ _ _ => Reply 200 (Json (pagination_doc 3));
       page_get := fun _ _ _ => NoReply "unused";
       random_random := fun _ _ => 0%Q;
       append_page := fun _ => true |} 42 "infosys" "sid=abc" 20
  = 12.
Proof.
  apply (@discover_prefers_metadata ascii_runtime _ 42 "infosys" "sid=abc" 20)
    with (status := 200); [reflexivity | lia | lia].
Defined.

(** ** The batch loop, continued *)

Section BatchFacts.
Context `{PyRuntime}.
Variables (companies : list string) (total : Z).

(** The checkpoint in memory and the way the run ends are those of the loop
    in memory. *)
Lemma batch_step_outcome (env : BatchEnv) (i : Z) (st : BatchState) :
  (st_progress (batch_step env companies total i st).1.2,
   (batch_step env companies total i st).2)
  = step_outcome env companies total i (st_progress st).
Proof.
  unfold batch_step, step_outcome, leave, save.
  destruct (py_index companies i) as [company|]; [|done].
  destruct (String.eqb (str_strip company) ""); [done|].
  destruct (company_run env i (str_strip company)) as [result|[|e]]; try done.
  destruct (i <? total - 1); [|done].
  by destruct (pacing_sleep env i) as [[|e]|].
Qed.

Lemma batch_loop_outcome (env : BatchEnv) (todo : list Z) (st : BatchState) :
  (st_progress (batch_loop env companies total todo st).1.2,
   (batch_loop env companies total todo st).2)
  = loop_outcome env companies total todo (st_progress st).
Proof.
  revert st. induction todo as [|i rest IH]; intros st; [done|].
  cbn [batch_loop loop_outcome].
  rewrite <- (batch_step_outcome env i st).
  destruct (batch_step env companies total i st) as [[events st1] [exn|]]; [done|].
  cbn [fst snd]. rewrite <- (IH st1).
  by destruct (batch_loop env companies total rest st1) as [[events' st'] c'].
Qed.

Lemma batch_step_counts (env : BatchEnv) (i : Z) (st st' : BatchState)
    (events : list Event) :
  batch_step env companies total i st = (events, st', None) ->
  st_skipped st' + Z.of_nat (length (attempted events)) = st_skipped st + 1 /\
  entries (st_progress st')
  = (entries (st_progress st) + length (attempted events))%nat /\
  length (checkpoints events) = length (attempted events) /\
  st_saves st' = (st_saves st + length (checkpoints events))%nat.
Proof.
  unfold batch_step, leave, save.
  destruct (py_index companies i) as [company|]; [|done].
  destruct (String.eqb (str_strip company) "").
  { intros [= <- <-]. simpl. repeat split; lia. }
  destruct (company_run env i (str_strip company)) as [result|[|e]]; try done.
  destruct (i <? total - 1).
  - destruct (pacing_sleep env i) as [[|e]|]; try done.
    intros [= <- <-]. simpl. rewrite entries_record_result. repeat split; lia.
  - intros [= <- <-]. simpl. rewrite entries_record_result. repeat split; lia.
Qed.

Lemma batch_loop_counts (env : BatchEnv) (todo : list Z) (st : BatchState) :
  let r := batch_loop env companies total todo st in
  r.2 = None ->
  st_skipped r.1.2 + Z.of_nat (length (attempted r.1.1))
  = st_skipped st + Z.of_nat (length todo) /\
  entries (st_progress r.1.2)
  = (entries (st_progress st) + length (attempted r.1.1))%nat /\
  length (checkpoints r.1.1) = length (attempted r.1.1) /\
  st_saves r.1.2 = (st_saves st + length (checkpoints r.1.1))%nat.
Proof.
  cbv zeta. revert st. induction todo as [|i rest IH]; intros st; simpl.
  { intros _. repeat split; lia. }
  destruct (batch_step env companies total i st) as [[events st1] [exn|]] eqn:Hstep;
    [done|].
  apply batch_step_counts in Hstep as (Hskip & Hentries & Hsaved & Hsaves).
  specialize (IH st1).
  destruct (batch_loop env companies total rest st1) as [[events' st'] c'].
  simpl in *. intros Hc. destruct (IH Hc) as (IHskip & IHentries & IHsaved & IHsaves).
  unfold attempted, checkpoints in *. rewrite !omap_app, !length_app.
  repeat split; lia.
Qed.

(** When the run is interrupted, the checkpoint in memory is saved last. *)
Lemma batch_loop_interrupted (env : BatchEnv) (todo : list Z) (st : BatchState) :
  let r := batch_loop env companies total todo st in
  r.2 = Some KeyboardInterrupt ->
  exists pre w, r.1.1 = pre ++ [Saved (st_progress r.1.2) w].
Proof.
  cbv zeta.
  apply (batch_loop_ind env companies total (fun _ _ events p' c =>
           c = Some KeyboardInterrupt -> exists pre w, events = pre ++ [Saved p' w])).
  - done.
  - intros i rest cur events p exn Hshape [= ->].
    inversion Hshape as [| | |url w Hrun|url result w tail c Hrun Hpause]; subst.
    + by exists [Attempted i url], w.
    + inversion Hpause; subst.
      by eexists [Attempted i url; Saved _ w; Paused i], _.
  - intros i rest cur events p events' p' c' _ IH Hc.
    destruct (IH Hc) as (pre & w & ->). exists (events ++ pre), w.
    by rewrite app_assoc.
Qed.

(** Every URL handed to [process_company] is the stripped entry at the
    visited index, and it is not empty. *)
Lemma batch_loop_attempts_stripped (env : BatchEnv) (todo : list Z) (st : BatchState)
    (i : Z) (url : string) :
  Attempted i url ∈ (batch_loop env companies total todo st).1.1 ->
  exists company,
    py_index companies i = Some company /\ url = str_strip company /\ url <> ""%string.
Proof.
  revert st. induction todo as [|i0 rest IH]; intros st; simpl.
  { by intros ?%elem_of_nil. }
  destruct (batch_step env companies total i0 st) as [[events st1] c] eqn:Hstep.
  assert (Hhere : Attempted i url ∈ events ->
            exists company,
              py_index companies i = Some company /\ url = str_strip company /\
              url <> ""%string).
  { revert Hstep. unfold batch_step, leave, save.
    destruct (py_index companies i0) as [company|] eqn:Hi0;
      [|intros [= <- <- <-]; by intros ?%elem_of_nil].
    destruct (String.eqb_spec (str_strip company) "") as [|Hne].
    { intros [= <- <- <-]. intros [Heq|Hin]%elem_of_cons; [discriminate|].
      by apply elem_of_nil in Hin. }
    assert (Hgood : forall l : list Event,
              Forall (fun e => match e with Attempted _ _ => False | _ => True end) l ->
              Attempted i url ∈ Attempted i0 (str_strip company) :: l ->
              exists company0,
                py_index companies i = Some company0 /\ url = str_strip company0 /\
                url <> ""%string).
    { intros l Hl [Heq|Hin]%elem_of_cons.
      - injection Heq as -> ->. by exists company.
      - rewrite Forall_forall in Hl. by destruct (Hl _ Hin). }
    destruct (company_run env i0 (str_strip company)) as [result|[|e]].
    - destruct (i0 <? total - 1);
        [destruct (pacing_sleep env i0) as [[|e]|]|];
        intros [= <- <- <-]; apply Hgood; by repeat constructor.
    - intros [= <- <- <-]; apply Hgood; by repeat constructor.
    - intros [= <- <- <-]; apply Hgood; by repeat constructor. }
  destruct c as [exn|]; simpl; [done|].
  specialize (IH st1).
  destruct (batch_loop env companies total rest st1) as [[events' st'] c'].
  simpl in *. intros [Hin|Hin]%elem_of_app; [by apply Hhere|by apply IH].
Qed.

(** While every write succeeds, the checkpoint file holds the checkpoint in
    memory whenever the loop is between two passes, and when it ends. *)
Lemma batch_loop_disk_tracks (env : BatchEnv) (todo : list Z) (st : BatchState) :
  (forall n, checkpoint_write env n = Written) ->
  load_batch_progress (st_disk st) = st_progress st ->
  load_batch_progress (st_disk (batch_loop env companies total todo st).1.2)
  = st_progress (batch_loop env companies total todo st).1.2.
Proof.
  intros Hwritten. revert st. induction todo as [|i rest IH]; intros st Hst; [done|].
  cbn [batch_loop].
  destruct (batch_step env companies total i st) as [[events st1] c] eqn:Hstep.
  assert (Hst1 : load_batch_progress (st_disk st1) = st_progress st1).
  { revert Hstep. unfold batch_step, leave, save. rewrite !Hwritten.
    destruct (py_index companies i) as [company|]; [|by intros [= <- <- <-]].
    destruct (String.eqb (str_strip company) ""); [by intros [= <- <- <-]|].
    destruct (company_run env i (str_strip company)) as [result|[|e]].
    - destruct (i <? total - 1); [|by intros [= <- <- <-]].
      destruct (pacing_sleep env i) as [[|e]|]; try by intros [= <- <- <-].
      rewrite Hwritten. by intros [= <- <- <-].
    - by intros [= <- <- <-].
    - by intros [= <- <- <-]. }
  destruct c as [exn|]; [done|].
  specialize (IH st1 Hst1).
  by destruct (batch_loop env companies total rest st1) as [[events' st'] c'].
Qed.

End BatchFacts.

Section Resume.
Context `{PyRuntime}.
Variables (companies : list string) (total : Z).

Lemma loop_outcome_with_writes (env : BatchEnv) (writes : nat -> WriteOutcome)
    (todo : list Z) (cur : Progress) :
  loop_outcome (with_writes env writes) companies total todo cur
  = loop_outcome env companies total todo cur.
Proof.
  revert cur. induction todo as [|i rest IH]; intros cur; [done|].
  cbn [loop_outcome].
  change (step_outcome (with_writes env writes) companies total i cur)
    with (step_outcome env companies total i cur).
  destruct (step_outcome env companies total i cur) as [p [exn|]]; [done|apply IH].
Qed.

Lemma filter_all (P : Z -> Prop) `{forall x, Decision (P x)} (l : list Z) :
  Forall P l -> filter P l = l.
Proof.
  induction 1 as [|x l Hx Hl IH]; [done|].
  by rewrite filter_cons, decide_True, IH.
Qed.

Lemma filter_none (P : Z -> Prop) `{forall x, Decision (P x)} (l : list Z) :
  Forall (fun x => ~ P x) l -> filter P l = [].
Proof.
  induction 1 as [|x l Hx Hl IH]; [done|].
  by rewrite filter_cons, decide_False, IH.
Qed.

Lemma filter_py_range (start stop k : Z) :
  start <= k + 1 ->
  filter (fun i => k < i) (py_range start stop) = py_range (k + 1) stop.
Proof.
  intros Hstart. destruct (Z.le_gt_cases (k + 1) stop) as [Hle|Hgt].
  - rewrite (py_range_split start (k + 1) stop) by lia. rewrite filter_app.
    rewrite filter_none, filter_all; [done| |].
    + apply Forall_forall. intros i Hi%elem_of_py_range. lia.
    + apply Forall_forall. intros i Hi%elem_of_py_range. lia.
  - rewrite (py_range_nil (k + 1)) by lia. apply filter_none.
    apply Forall_forall. intros i Hi%elem_of_py_range. lia.
Qed.

(** The core of resumption, in memory: a run that ends early, for whatever
    reason, leaves a checkpoint from which the indices above its
    [last_index] lead to the checkpoint of the run that is not disturbed. *)
Lemma loop_outcome_resumes (env env1 : BatchEnv) (todo : list Z)
    (cur p1 final : Progress) (c1 : option Raised) :
  (forall i url r, company_run env1 i url = inl r -> company_run env i url = inl r) ->
  StronglySorted Z.lt todo ->
  Forall (fun i => last_index cur < i) todo ->
  loop_outcome env companies total todo cur = (final, None) ->
  loop_outcome env1 companies total todo cur = (p1, c1) ->
  last_index cur <= last_index p1 /\
  loop_outcome env companies total (filter (fun i => last_index p1 < i) todo) p1
  = (final, None).
Proof.
  intros Hagree. revert cur.
  induction todo as [|i rest IH]; intros cur Hsorted Habove Hfull Hfirst.
  { simpl in *. injection Hfull as <-. injection Hfirst as <- <-. split; [lia|done]. }
  apply StronglySorted_inv in Hsorted as [Hsorted Hrest].
  apply Forall_cons in Habove as [Hi Habove].
  cbn [loop_outcome] in Hfull, Hfirst. unfold step_outcome in Hfull, Hfirst.
  destruct (py_index companies i) as [company|] eqn:Hindex; [|done].
  destruct (String.eqb (str_strip company) "") eqn:Hblank.
  - destruct (IH cur Hsorted Habove Hfull Hfirst) as [Hle IHresume].
    split; [exact Hle|]. rewrite filter_cons.
    destruct (decide (last_index p1 < i)); [|exact IHresume].
    cbn [loop_outcome]. unfold step_outcome. by rewrite Hindex, Hblank.
  - destruct (company_run env i (str_strip company)) as [r|exn] eqn:Hrun; [|done].
    assert (Hrest' : Forall (fun j => last_index (record_result cur r i) < j) rest).
    { rewrite last_index_record_result. exact Hrest. }
    assert (Hpause : (if i <? total - 1 then pacing_sleep env i else None) = None).
    { by destruct (if i <? total - 1 then pacing_sleep env i else None). }
    rewrite Hpause in Hfull.
    assert (Hwhole : loop_outcome env companies total (i :: rest) cur = (final, None)).
    { cbn [loop_outcome]. unfold step_outcome. by rewrite Hindex, Hblank, Hrun, Hpause. }
    destruct (company_run env1 i (str_strip company)) as [r1|exn] eqn:Hrun1.
    + assert (r1 = r) as -> by (apply Hagree in Hrun1; congruence).
      destruct (if i <? total - 1 then pacing_sleep env1 i else None) as [exn|].
      * injection Hfirst as <- <-. rewrite last_index_record_result.
        split; [lia|]. rewrite filter_cons, decide_False by lia.
        rewrite filter_all; [done|]. exact Hrest.
      * destruct (IH _ Hsorted Hrest' Hfull Hfirst) as [Hle IHresume].
        rewrite last_index_record_result in Hle.
        split; [lia|]. by rewrite filter_cons, decide_False by lia.
    + injection Hfirst as <- <-. split; [lia|].
      rewrite filter_all; [exact Hwhole|]. by constructor.
Qed.

End Resume.

Section BatchProperties.
Context `{PyRuntime}.

(** With no checkpoint file, or with one that cannot be read, [--resume]
    changes nothing: the run is the run without it.  And [--reset] makes
    [--resume] pointless, as the file is removed before it is loaded. *)
Theorem resume_needs_a_checkpoint (env : BatchEnv) (menv : MainEnv)
    (companies : list string) (rs b : bool) (disk : CheckpointFile) :
  (load_batch_progress disk = empty_progress ->
   process_batch env companies {| resume := true; reset := rs |} disk
   = process_batch env companies {| resume := false; reset := rs |} disk) /\
  main menv {| resume := b; reset := true |} disk
  = main menv {| resume := false; reset := true |} disk.
Proof.
  split.
  - intros Hempty. unfold process_batch, start_index. cbn [resume]. by rewrite Hempty.
  - unfold main, main_async, reset_step. cbn [reset].
    destruct (mkdir_base_dir menv); [done|].
    assert (Hsame : forall companies,
              process_batch (batch_env menv) companies {| resume := b; reset := true |} NoFile
              = process_batch (batch_env menv) companies
                  {| resume := false; reset := true |} NoFile).
    { intros l. unfold process_batch, start_index. cbn [resume]. by destruct b. }
    destruct (checkpoint_exists disk) eqn:Hexists.
    + destruct (unlink_checkpoint menv); [done|].
      destruct (read_companies_from_csv menv) as [[|c l]|]; try done.
      by rewrite Hsame.
    + destruct disk; try done.
      destruct (read_companies_from_csv menv) as [[|c l]|]; try done.
      by rewrite Hsame.
Qed.

(** When no exception ends the run, every index from the start index on was
    either skipped as blank or attempted, each attempt added exactly one
    entry to the checkpoint and was saved once: for a run from an empty
    checkpoint, processed + failed + skipped is the number of companies. *)
Theorem batch_summary_adds_up (env : BatchEnv) (companies : list string)
    (args : Args) (disk : CheckpointFile) :
  let p0 := load_batch_progress disk in
  let total := Z.of_nat (length companies) in
  let r := process_batch env companies args disk in
  r.2 = None ->
  st_skipped r.1.2 + Z.of_nat (length (attempted r.1.1))
  = Z.max 0 (total - start_index args p0) /\
  entries (st_progress r.1.2) = (entries p0 + length (attempted r.1.1))%nat /\
  length (checkpoints r.1.1) = length (attempted r.1.1) /\
  (start_index args p0 = 0 -> entries p0 = 0%nat ->
   Z.of_nat (entries (st_progress r.1.2)) + st_skipped r.1.2 = total).
Proof.
  cbv zeta. unfold process_batch. intros Hc.
  set (p0 := load_batch_progress disk) in *.
  set (total := Z.of_nat (length companies)) in *.
  destruct (batch_loop_counts companies total env (py_range (start_index args p0) total)
              {| st_progress := p0; st_disk := disk; st_saves := 0; st_skipped := 0 |} Hc)
    as (Hskip & Hentries & Hsaved & _).
  rewrite length_py_range in Hskip. cbn [st_skipped st_progress] in *.
  split; [lia|]. split; [exact Hentries|]. split; [exact Hsaved|].
  intros Hstart Hempty. lia.
Qed.

(** A [KeyboardInterrupt] is answered by one more save of the checkpoint in
    memory, which is the last event of the run; when that write succeeds the
    file holds exactly that checkpoint. *)
Theorem interrupt_saves_the_checkpoint (env : BatchEnv) (companies : list string)
    (args : Args) (disk : CheckpointFile) :
  let r := process_batch env companies args disk in
  r.2 = Some KeyboardInterrupt ->
  exists pre w,
    r.1.1 = pre ++ [Saved (st_progress r.1.2) w] /\
    st_disk r.1.2 = save_batch_progress w (st_progress r.1.2) (disk_after disk pre) /\
    (w = Written -> st_disk r.1.2 = Stored (st_progress r.1.2)).
Proof.
  cbv zeta. unfold process_batch. intros Hc.
  set (st0 := {| st_progress := load_batch_progress disk; st_disk := disk;
                 st_saves := 0; st_skipped := 0 |}) in *.
  set (todo := py_range _ _) in *.
  destruct (batch_loop_interrupted companies (Z.of_nat (length companies)) env todo st0 Hc)
    as (pre & w & Hevents).
  exists pre, w. split; [exact Hevents|].
  assert (Hdisk : st_disk (batch_loop env companies (Z.of_nat (length companies)) todo st0).1.2
            = save_batch_progress w
                (st_progress (batch_loop env companies (Z.of_nat (length companies))
                                todo st0).1.2)
                (disk_after disk pre)).
  { rewrite batch_loop_disk, Hevents. by rewrite disk_after_app. }
  split; [exact Hdisk|]. intros ->. by rewrite Hdisk.
Qed.

Lemma disk_after_no_save (disk : CheckpointFile) (events : list Event) :
  checkpoints events = [] -> disk_after disk events = disk.
Proof.
  revert disk. induction events as [|e events IH]; intros disk; [done|].
  destruct e; simpl; try apply IH. done.
Qed.

(** [process_company] is only called on entries that are not blank, with the
    stripped entry as URL; a list of blank entries alone leaves the
    checkpoint in memory and the checkpoint file as they were. *)
Theorem only_non_blank_entries_are_attempted (env : BatchEnv) (companies : list string)
    (args : Args) (disk : CheckpointFile) :
  let r := process_batch env companies args disk in
  (forall i url, Attempted i url ∈ r.1.1 ->
     exists company,
       py_index companies i = Some company /\ url = str_strip company /\
       is_blank company = false) /\
  ((forall company, company ∈ companies -> is_blank company = true) ->
   attempted r.1.1 = [] /\ checkpoints r.1.1 = [] /\
   st_progress r.1.2 = load_batch_progress disk /\ st_disk r.1.2 = disk).
Proof.
  cbv zeta. unfold process_batch.
  set (st0 := {| st_progress := load_batch_progress disk; st_disk := disk;
                 st_saves := 0; st_skipped := 0 |}).
  set (total := Z.of_nat (length companies)).
  set (todo := py_range _ _).
  assert (Hattempts : forall i url,
            Attempted i url ∈ (batch_loop env companies total todo st0).1.1 ->
            exists company,
              py_index companies i = Some company /\ url = str_strip company /\
              is_blank company = false).
  { intros i url Hin.
    destruct (batch_loop_attempts_stripped companies total env todo st0 i url Hin)
      as (company & Hindex & -> & Hne).
    exists company. split; [done|]. split; [done|].
    unfold is_blank. by destruct (String.eqb_spec (str_strip company) ""). }
  split; [exact Hattempts|]. intros Hblank.
  assert (Hnone : attempted (batch_loop env companies total todo st0).1.1 = []).
  { destruct (attempted _) as [|i l] eqn:Hatt; [done|]. exfalso.
    assert (Hi : i ∈ attempted (batch_loop env companies total todo st0).1.1)
      by (rewrite Hatt; by left).
    unfold attempted in Hi. apply list_elem_of_omap in Hi as (e & He & Hsome).
    destruct e as [|j url| |]; try done. injection Hsome as ->.
    destruct (Hattempts i url He) as (company & Hindex & _ & Hnot).
    rewrite Hblank in Hnot; [done|].
    unfold py_index in Hindex.
    repeat (match type of Hindex with context [if ?b then _ else _] => destruct b end);
      try done; by eapply list_elem_of_lookup_2. }
  split; [exact Hnone|].
  pose proof (batch_loop_ind env companies total (fun _ cur events p' _ =>
                attempted events = [] -> checkpoints events = [] /\ p' = cur)) as Hind.
  destruct (Hind) with (todo := todo) (st := st0) as [Hsaved Hprogress]; try exact Hnone.
  - done.
  - intros i rest cur events p exn Hshape.
    by inversion Hshape as [| | | |????? _ Hpause]; subst.
  - intros i rest cur events p events' p' c' Hshape IH.
    unfold attempted, checkpoints in *. rewrite !omap_app.
    intros [Hev Hev']%app_eq_nil. destruct (IH Hev') as [-> ->].
    by inversion Hshape as [| | | |????? _ Hpause]; subst.
  - split; [exact Hsaved|]. split; [exact Hprogress|].
    rewrite batch_loop_disk. by apply disk_after_no_save.
Qed.

(** What the writes of the checkpoint file do has no influence on the run:
    the checkpoint in memory at the end and the way the run ends are the
    same whatever the writes do. *)
Theorem write_failures_do_not_change_the_run (env : BatchEnv)
    (writes : nat -> WriteOutcome) (companies : list string) (args : Args)
    (disk : CheckpointFile) :
  st_progress (process_batch (with_writes env writes) companies args disk).1.2
  = st_progress (process_batch env companies args disk).1.2 /\
  (process_batch (with_writes env writes) companies args disk).2
  = (process_batch env companies args disk).2.
Proof.
  unfold process_batch.
  set (total := Z.of_nat (length companies)).
  set (st0 := {| st_progress := load_batch_progress disk; st_disk := disk;
                 st_saves := 0; st_skipped := 0 |}).
  set (todo := py_range _ _).
  pose proof (batch_loop_outcome companies total (with_writes env writes) todo st0) as H1.
  pose proof (batch_loop_outcome companies total env todo st0) as H2.
  rewrite loop_outcome_with_writes, <- H2 in H1.
  by injection H1 as -> ->.
Qed.

(** Resumption: when a run that started from its checkpoint's [last_index]
    ends early for whatever reason (an interrupt, a crash) and its writes
    succeeded, a second run with [--resume] ends without exception with the
    very checkpoint the undisturbed run would have ended with, and attempts
    only targets above the [last_index] the first run left. *)
Theorem resume_completes_an_interrupted_run (env env1 : BatchEnv)
    (companies : list string) (args : Args) (disk : CheckpointFile) :
  (resume args = true \/ load_batch_progress disk = empty_progress) ->
  (forall n, checkpoint_write env1 n = Written) ->
  (forall i url r, company_run env1 i url = inl r -> company_run env i url = inl r) ->
  let undisturbed := process_batch env companies args disk in
  let first := process_batch env1 companies args disk in
  let second := process_batch env companies resume_args (st_disk first.1.2) in
  undisturbed.2 = None ->
  second.2 = None /\
  st_progress second.1.2 = st_progress undisturbed.1.2 /\
  Forall (fun i => last_index (st_progress first.1.2) < i) (attempted second.1.1).
Proof.
  intros Hstart Hwritten Hagree. cbv zeta. unfold process_batch.
  set (total := Z.of_nat (length companies)).
  set (p0 := load_batch_progress disk).
  set (st0 := {| st_progress := p0; st_disk := disk; st_saves := 0; st_skipped := 0 |}).
  assert (Hs : start_index args p0 = last_index p0 + 1).
  { unfold start_index. destruct Hstart as [->|Hempty]; [done|].
    unfold p0. rewrite Hempty. by destruct (resume args). }
  rewrite Hs. set (todo := py_range (last_index p0 + 1) total).
  intros Hfull.
  pose proof (batch_loop_outcome companies total env todo st0) as Hout.
  pose proof (batch_loop_outcome companies total env1 todo st0) as Hout1.
  pose proof (batch_loop_disk_tracks companies total env1 todo st0 Hwritten eq_refl) as Hdisk.
  set (first := batch_loop env1 companies total todo st0) in *.
  set (full := batch_loop env companies total todo st0) in *.
  rewrite Hfull in Hout. cbn [st_progress st0] in Hout, Hout1.
  destruct (loop_outcome_resumes companies total env env1 todo p0
              (st_progress first.1.2) (st_progress full.1.2) first.2 Hagree)
    as [Hle Hresume]; try done.
  { apply py_range_sorted. }
  { apply Forall_forall. intros i Hi%elem_of_py_range. lia. }
  unfold todo in Hresume. rewrite filter_py_range in Hresume by lia.
  rewrite Hdisk. cbn [start_index resume resume_args].
  set (st1 := {| st_progress := st_progress first.1.2; st_disk := st_disk first.1.2;
                 st_saves := 0; st_skipped := 0 |}).
  pose proof (batch_loop_outcome companies total env
                (py_range (last_index (st_progress first.1.2) + 1) total) st1) as Hout2.
  cbn [st_progress st1] in Hout2. rewrite Hresume in Hout2.
  injection Hout2 as Hp Hc. split; [exact Hc|]. split; [exact Hp|].
  eapply Forall_impl; [apply batch_loop_attempted|].
  intros i [Hi%elem_of_py_range _]. lia.
Qed.

End BatchProperties.

Lemma resume_needs_a_checkpoint_witness :
  @process_batch ascii_runtime quiet_batch two_companies resume_args Unreadable
  = @process_batch ascii_runtime quiet_batch two_companies plain_args Unreadable.
Proof.
  apply (@resume_needs_a_checkpoint ascii_runtime quiet_batch empty_csv two_companies
           false false Unreadable).
  reflexivity.
Defined.

Lemma batch_summary_adds_up_witness :
  Z.of_nat (entries (st_progress (@process_batch ascii_runtime quiet_batch four_companies
                                     plain_args NoFile).1.2))
  + st_skipped (@process_batch ascii_runtime quiet_batch four_companies plain_args NoFile).1.2
  = 4.
Proof.
  apply (@batch_summary_adds_up ascii_runtime quiet_batch four_companies plain_args NoFile);
    reflexivity.
Defined.

Lemma interrupt_saves_the_checkpoint_witness :
  exists pre w,
    (@process_batch ascii_runtime interrupted_at_third four_companies plain_args NoFile).1.1
    = pre ++ [Saved (st_progress (@process_batch ascii_runtime interrupted_at_third
                                    four_companies plain_args NoFile).1.2) w] /\
    st_disk (@process_batch ascii_runtime interrupted_at_third four_companies plain_args
               NoFile).1.2
    = save_batch_progress w
        (st_progress (@process_batch ascii_runtime interrupted_at_third four_companies
                        plain_args NoFile).1.2)
        (disk_after NoFile pre) /\
    (w = Written ->
     st_disk (@process_batch ascii_runtime interrupted_at_third four_companies plain_args
                NoFile).1.2
     = Stored (st_progress (@process_batch ascii_runtime interrupted_at_third
                              four_companies plain_args NoFile).1.2)).
Proof.
  apply (@interrupt_saves_the_checkpoint ascii_runtime interrupted_at_third four_companies
           plain_args NoFile).
  reflexivity.
Defined.

Lemma only_non_blank_entries_are_attempted_witness :
  checkpoints (@process_batch ascii_runtime quiet_batch ["  "%string; ""%string]
                 plain_args (Stored stale_checkpoint)).1.1 = [].
Proof.
  apply (@only_non_blank_entries_are_attempted ascii_runtime quiet_batch
           ["  "%string; ""%string] plain_args (Stored stale_checkpoint)).
  intros company Hin.
  apply elem_of_cons in Hin as [->|Hin]; [reflexivity|].
  apply elem_of_cons in Hin as [->|Hin]; [reflexivity|].
  by apply elem_of_nil in Hin.
Defined.

Lemma resume_completes_an_interrupted_run_witness :
  st_progress
    (@process_batch ascii_runtime quiet_batch four_companies resume_args
       (st_disk (@process_batch ascii_runtime interrupted_at_third four_companies
                   plain_args NoFile).1.2)).1.2
  = st_progress (@process_batch ascii_runtime quiet_batch four_companies plain_args
                   NoFile).1.2.
Proof.
  apply (@resume_completes_an_interrupted_run ascii_runtime quiet_batch
           interrupted_at_third four_companies plain_args NoFile).
  - right. reflexivity.
  - intros n. reflexivity.
  - intros i url r. simpl. destruct (i =? 2); [discriminate|]. intros Hr. exact Hr.
  - reflexivity.
Defined.

(** ** One company *)

Lemma discover_total_pages_at_least_one `{PyRuntime} (net : Net) (id : Z)
    (name cookies : string) (limit : Z) :
  1 <= discover_total_pages net id name cookies limit.
Proof.
  unfold discover_total_pages.
  destruct (discover_from_seo _ _ _) as [t|] eqn:Hseo.
  { apply discover_from_seo_gt in Hseo. lia. }
  destruct (discover_from_data _ _ _ _) as [t|] eqn:Hdata; [|lia].
  apply discover_from_data_gt in Hdata. lia.
Qed.

Lemma run_written_nonneg (self : CompanyFetcher) (net : Net) (total_pages : Z) :
  0 <= (run self net total_pages).2.2.
Proof.
  unfold run. rewrite (run_fold self net). cbn [fst snd app].
  rewrite (tally_pages self net). cbn [fst snd].
  apply Z.add_nonneg_nonneg; [lia|]. apply sum_Z_nonneg, Forall_fmap, Forall_forall.
  intros p _. simpl. unfold page_records.
  destruct (page_ok self net p); [apply process_page_count_nonneg|lia].
Qed.

Lemma process_page_unreachable (self : CompanyFetcher) (net : Net) (p : Z) :
  process_page self (pages_unreachable net) p = (false, 0).
Proof. reflexivity. Qed.

Lemma sum_Z_zero (f : Z -> Z) (l : list Z) :
  (forall x, f x = 0) -> sum_Z (map f l) = 0.
Proof. intros Hf. induction l as [|x l IH]; simpl; [done|]. rewrite Hf, IH. done. Qed.

Section Company.
Context `{PyRuntime} `{PyText}.
Variables (w : World) (args : FetchArgs).

(** The result always names its target and carries the time it was started
    at; it is a success exactly when it has no error; a failure has no
    review and no output file; a success has a URL name that is not empty,
    at least one page, a count of reviews that is not negative and an output
    file. *)
Theorem process_company_result_is_consistent (url : string) (index total : Z) :
  let r := process_company w args url index total in
  r_url r = url /\ r_index r = index /\ r_timestamp r = now w /\
  (r_success r = true <-> r_error r = None) /\
  (r_success r = false -> r_reviews r = 0 /\ r_output_file r = None) /\
  (r_success r = true ->
   (exists name, r_urlname r = Some name /\ name <> ""%string /\
                 r_output_file r = Some (out_file_of name)) /\
   1 <= r_pages r /\ 0 <= r_reviews r).
Proof.
  cbv zeta. unfold process_company.
  destruct (extract_urlname_from_url url) as [name|]; [|by repeat split].
  destruct (String.eqb_spec name ""); [by repeat split|].
  destruct (mkdir_company_dir w (company_dir name)); [by repeat split|].
  destruct (capture_cookies_visible_browser (browser_of w url) url 3).2 as [[cookies|] error];
    [|by repeat split].
  destruct (String.eqb cookies ""); [by repeat split|].
  destruct (negb (truthy _)); [by repeat split|].
  destruct (extract_company_id _) as [id|]; [|by repeat split].
  destruct (id =? 0); [by repeat split|].
  destruct (arg_concurrency args <? 0); [by repeat split|].
  destruct (session_error w); [by repeat split|].
  set (fetcher := Build_CompanyFetcher _ _ _ _ _ _).
  set (pages := discover_total_pages _ _ _ _ _).
  pose proof (run_written_nonneg fetcher (site w) pages) as Hwritten.
  pose proof (discover_total_pages_at_least_one (site w) id name cookies (arg_limit args))
    as Hpages.
  destruct (run fetcher (site w) pages).2 as [fetched written]. simpl in *.
  repeat split; try done. by exists name.
Qed.

(** A success does not depend on any page: where a company is processed
    with success, it is also processed with success, the same number of
    pages and no review at all, when not a single page can be fetched. *)
Theorem process_company_succeeds_without_any_page (url : string) (index total : Z) :
  r_success (process_company w args url index total) = true ->
  let r := process_company (without_pages w) args url index total in
  r_success r = true /\ r_reviews r = 0 /\
  r_pages r = r_pages (process_company w args url index total).
Proof.
  unfold process_company. cbn [without_pages now mkdir_company_dir browser_of meta_net
    site session_error].
  destruct (extract_urlname_from_url url) as [name|]; [|done].
  destruct (String.eqb name ""); [done|].
  destruct (mkdir_company_dir w (company_dir name)); [done|].
  destruct (capture_cookies_visible_browser (browser_of w url) url 3).2 as [[cookies|] error];
    [|done].
  destruct (String.eqb cookies ""); [done|].
  destruct (negb (truthy _)); [done|].
  destruct (extract_company_id _) as [id|]; [|done].
  destruct (id =? 0); [done|].
  change (discover_total_pages (pages_unreachable (site w)) id name cookies (arg_limit args))
    with (discover_total_pages (site w) id name cookies (arg_limit args)).
  destruct (arg_concurrency args <? 0); [done|].
  destruct (session_error w); [done|].
  set (fetcher := Build_CompanyFetcher _ _ _ _ _ _).
  set (pages := discover_total_pages _ _ _ _ _).
  intros _.
  assert (Hnone : (run fetcher (pages_unreachable (site w)) pages).2 = (0, 0)).
  { unfold run. rewrite (run_fold fetcher). cbn [fst snd app].
    rewrite (tally_pages fetcher). cbn [fst snd].
    assert (Hfail : forall p, page_ok fetcher (pages_unreachable (site w)) p = false).
    { intros p. unfold page_ok. by rewrite process_page_unreachable. }
    f_equal.
    - rewrite filter_none; [done|]. apply Forall_forall. intros p _. by rewrite Hfail.
    - rewrite sum_Z_zero; [done|]. intros p. unfold page_records. by rewrite Hfail. }
  rewrite Hnone.
  by destruct (run fetcher (site w) pages).2.
Qed.

(** A URL whose final segment is empty, or is just ["-reviews"], has no URL
    name: the result is a failure that says so, whatever the browser and the
    site would do. *)
Theorem process_company_rejects_empty_urlname (url : string) (index total : Z) :
  final_segment url = ""%string \/ final_segment url = "-reviews"%string ->
  process_company w args url index total
  = failed_result w url index None 0 "Could not extract urlname from URL".
Proof.
  intros Hsegment. unfold process_company.
  rewrite extract_urlname_from_url_final_segment.
  by destruct Hsegment as [-> | ->].
Qed.

End Company.

Lemma process_company_result_is_consistent_witness :
  1 <= r_pages (@process_company ascii_runtime ascii_text friendly_world default_fetch_args
                  "https://www.ambitionbox.com/reviews/infosys-reviews" 0 1).
Proof.
  apply (@process_company_result_is_consistent ascii_runtime ascii_text friendly_world
           default_fetch_args "https://www.ambitionbox.com/reviews/infosys-reviews" 0 1).
  reflexivity.
Defined.

Lemma process_company_succeeds_without_any_page_witness :
  r_reviews (@process_company ascii_runtime ascii_text (without_pages friendly_world)
               default_fetch_args "https://www.ambitionbox.com/reviews/infosys-reviews" 0 1)
  = 0.
Proof.
  apply (@process_company_succeeds_without_any_page ascii_runtime ascii_text friendly_world
           default_fetch_args "https://www.ambitionbox.com/reviews/infosys-reviews" 0 1).
  reflexivity.
Defined.

Lemma process_company_rejects_empty_urlname_witness :
  r_error (@process_company ascii_runtime ascii_text friendly_world default_fetch_args
             "https://www.ambitionbox.com/reviews/-reviews" 0 1)
  = Some "Could not extract urlname from URL"%string.
Proof.
  rewrite (@process_company_rejects_empty_urlname ascii_runtime ascii_text friendly_world
             default_fetch_args "https://www.ambitionbox.com/reviews/-reviews" 0 1).
  - reflexivity.
  - right. reflexivity.
Defined.

(** ** Reading the companies *)

Lemma string_filter_forall (p : ascii -> bool) (s : string) :
  string_forall p (string_filter p s) = true.
Proof.
  induction s as [|a s IH]; simpl; [done|].
  destruct (p a) eqn:Hp; simpl; [by rewrite Hp|done].
Qed.

Lemma rstrip_app (c : ascii) (s t : string) :
  t <> EmptyString -> rstrip c t = t -> rstrip c (s +:+ t) = (s +:+ t)%string.
Proof.
  intros Ht Hstrip. induction s as [|a s IH]; [done|].
  change (String a s +:+ t)%string with (String a (s +:+ t)).
  cbn [rstrip]. rewrite IH.
  destruct (s +:+ t)%string eqn:Happ; [|done].
  destruct s; [by subst|done].
Qed.

Lemma split_app_sep_parts (c : ascii) (s t : string) :
  exists part parts, split c (s +:+ String c t) = part :: parts ++ split c t.
Proof.
  induction s as [|a s (part & parts & IH)].
  - change (EmptyString +:+ String c t)%string with (String c t).
    cbn [split]. rewrite Ascii.eqb_refl. by exists EmptyString, [].
  - change (String a s +:+ String c t)%string with (String a (s +:+ String c t)).
    cbn [split]. rewrite IH. destruct (Ascii.eqb a c).
    + by exists EmptyString, (part :: parts).
    + by exists (String a part), parts.
Qed.

Lemma split_app_sep (c : ascii) (s t : string) :
  last (split c (s +:+ String c t)) = last (split c t).
Proof.
  destruct (split_app_sep_parts c s t) as (part & parts & ->).
  destruct (split_last_is_Some c t) as [x Hx].
  by rewrite app_comm_cons, last_app, Hx.
Qed.

Lemma split_without_sep (c : ascii) (t : string) :
  string_forall (fun a => negb (Ascii.eqb a c)) t = true -> split c t = [t].
Proof.
  induction t as [|a t IH]; [done|]. simpl.
  intros [Ha Ht]%andb_prop. apply negb_true_iff in Ha. by rewrite Ha, IH.
Qed.

Lemma string_forall_app (p : ascii -> bool) (s t : string) :
  string_forall p s = true -> string_forall p t = true ->
  string_forall p (s +:+ t) = true.
Proof.
  intros Hs Ht. induction s as [|a s IH]; [done|].
  change (String a s +:+ t)%string with (String a (s +:+ t)).
  simpl in *. apply andb_prop in Hs as [Ha Hs]. by rewrite Ha, IH.
Qed.

Lemma string_forall_impl (p q : ascii -> bool) (s : string) :
  (forall a, p a = true -> q a = true) ->
  string_forall p s = true -> string_forall q s = true.
Proof.
  intros Hpq. induction s as [|a s IH]; [done|]. simpl.
  intros [Ha Hs]%andb_prop. by rewrite (Hpq a Ha), IH.
Qed.

Lemma omap_length_le {A B : Type} (f : A -> option B) (l : list A) :
  (length (omap f l) <= length l)%nat.
Proof.
  induction l as [|x l IH]; [done|].
  cbn [omap list_omap length]. fold (omap f l).
  destruct (f x); cbn [length]; lia.
Qed.

Section Csv.
Context `{PyRuntime} `{PyText}.

(** The URL built from a company name ends in the slug of the name followed
    by ["-reviews"], the slug holds nothing but [[a-z0-9-]], and the URL name
    extracted from that URL is the slug again whenever ["-reviews"] does not
    occur inside the slug followed by the suffix. *)
Theorem slug_url_round_trip (raw : string) :
  let slug := slug_of raw in
  string_forall slug_char slug = true /\
  final_segment (review_url slug) = (slug +:+ "-reviews")%string /\
  (no_inner_match slug = true ->
   extract_urlname_from_url (review_url slug) = Some slug).
Proof.
  cbv zeta. set (slug := slug_of raw).
  assert (Hchars : string_forall slug_char slug = true)
    by apply string_filter_forall.
  assert (Hsegment : final_segment (review_url slug) = (slug +:+ "-reviews")%string).
  { unfold final_segment, review_url.
    rewrite rstrip_app; [| |].
    - change ("https://www.ambitionbox.com/reviews/" +:+ slug +:+ "-reviews")%string
        with ("https://www.ambitionbox.com/reviews"
                +:+ String "/" (slug +:+ "-reviews"))%string.
      rewrite split_app_sep, split_without_sep; [done|].
      apply string_forall_app; [|done].
      eapply string_forall_impl; [|exact Hchars].
      intros a. unfold slug_char.
      destruct a as [[] [] [] [] [] [] [] []]; vm_compute; congruence.
    - by destruct slug.
    - by apply rstrip_app. }
  split; [exact Hchars|]. split; [exact Hsegment|].
  intros Hsingle.
  rewrite extract_urlname_from_url_final_segment, Hsegment, endswith_app.
  by rewrite replace_only_suffix.
Qed.

(** With neither a header nor a column name no company is read; a column
    name that is given is used as it is; a header named [url] is preferred
    to every other header; and the companies are those of the rows whose
    cell in the column is not blank, one for each, in the order of the
    rows. *)
Theorem read_companies_keeps_usable_rows (headers : list string)
    (rows : list (list (string * option string))) (url_column : option string) :
  read_companies_from_rows [] rows None = [] /\
  (forall column, column <> ""%string ->
     choose_column headers (Some column) = Some column) /\
  (in_list "url" headers = true -> choose_column headers None = Some "url"%string) /\
  (length (read_companies_from_rows headers rows url_column) <= length rows)%nat /\
  (forall company, company ∈ read_companies_from_rows headers rows url_column ->
     exists row column raw,
       row ∈ rows /\
       choose_column headers url_column = Some column /\
       raw = str_strip (default EmptyString (row_get column row)) /\
       raw <> ""%string /\
       company = company_of_cell raw).
Proof.
  split; [|split; [|split; [|split]]].
  - unfold read_companies_from_rows. simpl. by induction rows.
  - intros column Hcolumn. unfold choose_column.
    by destruct (String.eqb_spec column "").
  - intros Hurl. unfold choose_column, detect_column. simpl. by rewrite Hurl.
  - unfold read_companies_from_rows. apply omap_length_le.
  - intros company Hin. unfold read_companies_from_rows in Hin.
    apply list_elem_of_omap in Hin as (row & Hrow & Hcompany).
    unfold company_of_row in Hcompany.
    destruct (choose_column headers url_column) as [column|]; [|done].
    destruct (String.eqb column ""); [done|].
    destruct (String.eqb_spec (str_strip (default EmptyString (row_get column row))) "");
      [done|].
    injection Hcompany as <-. by eexists row, column, _.
Qed.

End Csv.

Lemma slug_url_round_trip_witness :
  extract_urlname_from_url (review_url (@slug_of ascii_text "Tata Consultancy_Services & Co."))
  = Some "tata-consultancy-services--co"%string.
Proof.
  apply (@slug_url_round_trip ascii_text "Tata Consultancy_Services & Co.").
  reflexivity.
Defined.

Lemma read_companies_keeps_usable_rows_witness :
  @read_companies_from_rows ascii_runtime ascii_text
    ["id"; "name"]%string
    [[("id"%string, Some "1"%string); ("name"%string, Some "Infosys"%string)];
     [("id"%string, Some "2"%string); ("name"%string, Some "  "%string)];
     [("id"%string, Some "3"%string); ("name"%string, None)]]
    None
  = ["https://www.ambitionbox.com/reviews/infosys-reviews"%string]
  /\ choose_column ["link"; "url"]%string None = Some "url"%string.
Proof.
  split; [reflexivity|].
  apply (@read_companies_keeps_usable_rows ascii_runtime ascii_text
           ["link"; "url"]%string [] None).
  reflexivity.
Defined.

(** ** The connection diagnosis *)

Lemma try_configs_first (navigate : BrowserConfig -> option string)
    (todo : list BrowserConfig) :
  let r := try_configs navigate todo in
  r.1 `prefix_of` todo /\
  (forall config, r.2 = Some config ->
     navigate config = None /\
     exists failed, r.1 = failed ++ [config] /\
       Forall (fun c => navigate c <> None) failed) /\
  (r.2 = None -> r.1 = todo /\ Forall (fun c => navigate c <> None) todo).
Proof.
  cbv zeta. induction todo as [|config rest IH]; simpl.
  { split; [done|]. split; [done|]. by split. }
  destruct (navigate config) as [e|] eqn:Hnav.
  - destruct (try_configs navigate rest) as [tried found]. simpl in *.
    destruct IH as (IHpre & IHsome & IHnone). split; [by apply prefix_cons|]. split.
    + intros c Hc. destruct (IHsome c Hc) as (Hok & failed & -> & Hfailed).
      split; [done|]. exists (config :: failed). split; [done|].
      constructor; [by rewrite Hnav|done].
    + intros Hc. destruct (IHnone Hc) as [-> Hall]. split; [done|].
      constructor; [by rewrite Hnav|done].
  - simpl. split; [apply prefix_cons, prefix_nil|]. split; [|done].
    intros c [= <-]. split; [done|]. by exists [].
Qed.

(** The configurations are tried in the order of the list and the first one
    whose navigation does not raise is returned, without trying any other;
    [None] comes back only after all four have failed, and the visible
    browser is returned only after the three headless configurations have
    failed. *)
Theorem test_playwright_returns_first_working_config
    (navigate : BrowserConfig -> option string) :
  let r := test_playwright_ambitionbox navigate in
  r.1 `prefix_of` configs /\
  (forall config, r.2 = Some config ->
     navigate config = None /\
     (exists failed, r.1 = failed ++ [config] /\
        Forall (fun c => navigate c <> None) failed) /\
     (cfg_headless config = false ->
      forall c, c ∈ configs -> cfg_headless c = true -> navigate c <> None)) /\
  (r.2 = None -> r.1 = configs /\ Forall (fun c => navigate c <> None) configs).
Proof.
  cbv zeta. unfold test_playwright_ambitionbox.
  destruct (try_configs_first navigate configs) as (Hpre & Hsome & Hnone).
  split; [exact Hpre|]. split; [|exact Hnone].
  intros config Hfound. destruct (Hsome config Hfound) as (Hok & failed & Htried & Hfailed).
  split; [exact Hok|]. split; [by exists failed|].
  intros Hvisible c Hc Hheadless.
  rewrite Htried in Hpre. destruct Hpre as [rest Hconfigs].
  assert (Hin : c ∈ failed).
  { rewrite Hconfigs in Hc.
    apply elem_of_app in Hc as [[Hc|Hc]%elem_of_app|Hc]; [done| |].
    - apply elem_of_cons in Hc as [->|Hc]; [congruence|by apply elem_of_nil in Hc].
    - exfalso. unfold configs in Hconfigs.
      destruct failed as [|f1 [|f2 [|f3 [|f4 failed]]]]; simplify_eq/=;
        try (by apply elem_of_nil in Hc);
        repeat (apply elem_of_cons in Hc as [->|Hc]; [done|]);
        try (by apply elem_of_nil in Hc).
      by destruct failed. }
  rewrite Forall_forall in Hfailed. by apply Hfailed.
Qed.

(** ALL TESTS PASSED is printed exactly when the DNS test, the HTTP test and
    the navigation passed; the tests of the review page and of the plain
    browser launch change neither the recommendation nor the next steps; and
    whenever a configuration works the next step is to run the scraper, even
    if the recommendation reports a DNS or a connectivity issue. *)
Theorem diagnosis_ignores_two_tests (d : Diagnosis) (page_ok basic_ok : bool) :
  let d' := {| diag_dns := diag_dns d; diag_http := diag_http d;
               diag_page := page_ok; diag_playwright_basic := basic_ok;
               diag_working_config := diag_working_config d |} in
  recommendation d' = recommendation d /\
  next_steps d' = next_steps d /\
  ((exists c, recommendation d = AllTestsPassed c) <->
   diag_dns d = true /\ diag_http d = true /\ diag_playwright_ambitionbox d = true) /\
  (next_steps d = RunScraperNormally <-> diag_playwright_ambitionbox d = true).
Proof.
  cbv zeta. unfold recommendation, next_steps, diag_playwright_ambitionbox. simpl.
  destruct (diag_dns d), (diag_http d), (diag_working_config d); simpl;
    (split; [done|]); (split; [done|]); split; split;
    first [ by intros [? ?] | by intros (? & ? & ?) | done
          | by (intros; eexists) | by (intros; repeat split) ].
Qed.

Lemma test_playwright_returns_first_working_config_witness :
  (test_playwright_ambitionbox headless_blocked).2
    = Some {| cfg_name := "Non-headless (visible browser)";
              cfg_headless := false; cfg_args := ["--no-sandbox"%string] |} /\
  Forall (fun c => cfg_headless c = true -> headless_blocked c <> None) configs.
Proof.
  split; [reflexivity|].
  apply Forall_forall.
  apply (test_playwright_returns_first_working_config headless_blocked)
    with (config := {| cfg_name := "Non-headless (visible browser)";
                       cfg_headless := false; cfg_args := ["--no-sandbox"%string] |});
    reflexivity.
Defined.

Lemma diagnosis_ignores_two_tests_witness :
  next_steps {| diag_dns := false; diag_http := true; diag_page := true;
                diag_playwright_basic := true;
                diag_working_config := head configs |} = RunScraperNormally.
Proof.
  apply (diagnosis_ignores_two_tests
           {| diag_dns := false; diag_http := true; diag_page := true;
              diag_playwright_basic := true; diag_working_config := head configs |}
           true true).
  reflexivity.
Defined.
